(** * Straight-line trajectories on flat surfaces

    A shallow embedding of [flatsurf/geometry/straight_line_trajectory.py]:
    the colinearity helper [get_linearity_coeff], the class
    [SegmentInPolygon], the segment based [StraightLineTrajectory] and the
    interval exchange based [StraightLineTrajectoryTranslation].

    The tangent bundle, the polygons and the interval exchange maps are
    collaborators of the module (it imports them from [tangent_bundle]
    and [polygon]); they are taken as a record of operations, and one
    instance, the square torus, is written out so that the statements can
    be evaluated. *)

From Stdlib Require Import ZArith QArith Qcanon List Bool String Lia Field.
Import ListNotations.

(** ** Exceptions and results *)

(** The Python exceptions the module can meet, with their message. *)
Inductive exn : Type :=
| ValueError (msg : string)
| TypeError (msg : string)
| RuntimeError (msg : string)
| IndexError (msg : string).

Inductive result (A : Type) : Type :=
| Ok (a : A)
| Raise (e : exn).

Arguments Ok {A} a.
Arguments Raise {A} e.

Definition bind {A B : Type} (m : result A) (f : A -> result B) : result B :=
  match m with
  | Ok a => f a
  | Raise e => Raise e
  end.

Notation "'do' x <- m ;; k" := (bind m (fun x => k))
  (at level 10, x name, m at level 100, k at level 200).

Fixpoint mapM {A B : Type} (f : A -> result B) (l : list A) : result (list B) :=
  match l with
  | [] => Ok []
  | a :: l' => do b <- f a ;; do bs <- mapM f l' ;; Ok (b :: bs)
  end.

(** ** The exact base field *)

(** Coordinates live in an exact field (the rationals or a number field in
    Sage): field operations and a decidable equality that is the
    mathematical one. *)
Record ExactField : Type := {
  K :> Type;
  Kzero : K;
  Kone : K;
  Kadd : K -> K -> K;
  Kmul : K -> K -> K;
  Ksub : K -> K -> K;
  Kopp : K -> K;
  Kdiv : K -> K -> K;
  Kinv : K -> K;
  Kth : field_theory Kzero Kone Kadd Kmul Ksub Kopp Kdiv Kinv eq;
  Keqb : K -> K -> bool;
  Keqb_spec : forall x y : K, reflect (x = y) (Keqb x y)
}.

Declare Scope K_scope.
Delimit Scope K_scope with K.
Notation "0" := (Kzero _) : K_scope.
Notation "1" := (Kone _) : K_scope.
Infix "+" := (Kadd _) : K_scope.
Infix "*" := (Kmul _) : K_scope.
Infix "-" := (Ksub _) : K_scope.
Infix "/" := (Kdiv _) : K_scope.
Notation "- x" := (Kopp _ x) : K_scope.

(** Truth value of a field element: [if x:] holds for the non zero ones. *)
Definition truthy {F : ExactField} (x : F) : bool := negb (Keqb F x 0%K).

(** [x.is_zero()] *)
Definition is_zero {F : ExactField} (x : F) : bool := Keqb F x 0%K.

(** Vectors of the plane, [u[0]] and [u[1]]. *)
Definition Vec2 (F : ExactField) : Type := (F * F)%type.

Definition vadd {F : ExactField} (u v : Vec2 F) : Vec2 F :=
  ((fst u + fst v)%K, (snd u + snd v)%K).
Definition vsub {F : ExactField} (u v : Vec2 F) : Vec2 F :=
  ((fst u - fst v)%K, (snd u - snd v)%K).
Definition vneg {F : ExactField} (u : Vec2 F) : Vec2 F :=
  ((- fst u)%K, (- snd u)%K).
Definition vscale {F : ExactField} (a : F) (u : Vec2 F) : Vec2 F :=
  ((a * fst u)%K, (a * snd u)%K).
Definition vzero {F : ExactField} : Vec2 F := (0%K, 0%K).

Definition vec_eqb {F : ExactField} (u v : Vec2 F) : bool :=
  Keqb F (fst u) (fst v) && Keqb F (snd u) (snd v).

(** ** [get_linearity_coeff] *)

(** [get_linearity_coeff(u, v)]: the [a] with [v = a*u]. *)
Definition get_linearity_coeff {F : ExactField} (u v : Vec2 F) : result F :=
  if truthy (fst u) then
    let a := (fst v / fst u)%K in
    if negb (Keqb F (snd v) (a * snd u)%K) then
      Raise (ValueError "non colinear")
    else Ok a
  else if truthy (fst v) then
    Raise (ValueError "non colinear")
  else if truthy (snd u) then
    Ok (snd v / snd u)%K
  else
    Raise (ValueError "zero vector").

(** ** The collaborators *)

(** Where a point lies in its polygon ([PolygonPosition]): in the
    interior, in the interior of an edge, or at a vertex. *)
Inductive Position : Type :=
| INTERIOR
| EDGE_INTERIOR (e : Z)
| VERTEX (v : Z).

Definition is_in_edge_interior (pos : Position) : bool :=
  match pos with EDGE_INTERIOR _ => true | _ => false end.

Definition is_vertex (pos : Position) : bool :=
  match pos with VERTEX _ => true | _ => false end.

(** The accessors of a position answer for their own kind only. *)
Definition get_edge (pos : Position) : result Z :=
  match pos with
  | EDGE_INTERIOR e => Ok e
  | _ => Raise (ValueError "Asked for edge when not in edge interior.")
  end.

Definition get_vertex (pos : Position) : result Z :=
  match pos with
  | VERTEX v => Ok v
  | _ => Raise (ValueError "Asked for vertex when not a vertex.")
  end.

(** The interval exchange map of a polygon in a direction, as
    [polygon.flow_map(direction)] returns it. *)
Record IET (F : ExactField) : Type := {
  forward_image : Z -> F -> Z * F;
  backward_image : Z -> F -> Z * F;
  length_bot : Z -> F;
  length_top : Z -> F
}.

Arguments forward_image {F} _ _ _.
Arguments backward_image {F} _ _ _.
Arguments length_bot {F} _ _.
Arguments length_top {F} _ _.

Module Surface.

(** A surface with its tangent bundle: the methods of the tangent vectors,
    of the surface and of its polygons that the module calls.  They are
    taken as total functions: what they raise themselves is not part of
    this model.  Polygon labels and edge numbers are integers; [==] on
    tangent vectors is the equality of their data. *)
Record FlatSurface (F : ExactField) : Type := {
  TV : Type;
  TV_eqb : TV -> TV -> bool;
  TV_eqb_spec : forall v w : TV, reflect (v = w) (TV_eqb v w);
  (* tangent vectors *)
  polygon_label : TV -> Z;
  point : TV -> Vec2 F;
  vector : TV -> Vec2 F;
  position : TV -> Position;
  is_based_at_singularity : TV -> bool;
  forward_to_polygon_boundary : TV -> TV;
  invert : TV -> TV;
  differs_by_scaling : TV -> TV -> bool;
  (* the surface and its polygons *)
  tangent_vector : Z -> Vec2 F -> Vec2 F -> TV;
  opposite_edge : Z -> Z -> Z * Z;
  vertex : Z -> Z -> Vec2 F;
  edge : Z -> Z -> Vec2 F;
  flow_map : Z -> Vec2 F -> IET F
}.

Arguments TV {F} _.
Arguments TV_eqb {F f} _ _.
Arguments TV_eqb_spec {F f} _ _.
Arguments polygon_label {F f} _.
Arguments point {F f} _.
Arguments vector {F f} _.
Arguments position {F f} _.
Arguments is_based_at_singularity {F f} _.
Arguments forward_to_polygon_boundary {F f} _.
Arguments invert {F f} _.
Arguments differs_by_scaling {F f} _ _.
Arguments tangent_vector {F} f _ _ _.
Arguments opposite_edge {F} f _ _.
Arguments vertex {F} f _ _.
Arguments edge {F} f _ _.
Arguments flow_map {F} f _ _.

End Surface.
Import Surface.

(** ** Double-ended queues *)

(** Both trajectories keep a [deque] that receives one element at
    construction and only grows afterwards: a first element and the rest. *)
Record deque (A : Type) : Type := { first : A; rest : list A }.

Arguments first {A} _.
Arguments rest {A} _.

Section Deque.
Context {A : Type}.

Definition singleton (a : A) : deque A := {| first := a; rest := [] |}.

(** [d[-1]] *)
Definition last (d : deque A) : A := List.last (rest d) (first d).

(** [d.append(a)] *)
Definition append (d : deque A) (a : A) : deque A :=
  {| first := first d; rest := rest d ++ [a] |}.

(** [d.appendleft(a)] *)
Definition appendleft (d : deque A) (a : A) : deque A :=
  {| first := a; rest := first d :: rest d |}.

Definition to_list (d : deque A) : list A := first d :: rest d.

(** [len(d)] *)
Definition len (d : deque A) : Z := Z.of_nat (List.length (to_list d)).

(** [d[i]], with the negative indices of Python. *)
Definition getitem (d : deque A) (i : Z) : result A :=
  let j := if (i <? 0)%Z then (i + len d)%Z else i in
  if (j <? 0)%Z then Raise (IndexError "deque index out of range")
  else match nth_error (to_list d) (Z.to_nat j) with
       | Some a => Ok a
       | None => Raise (IndexError "deque index out of range")
       end.
End Deque.

(** ** Iteration *)

(** What a [for] meets when it asks a value for its elements: an integer
    has none to give. *)
Inductive pyval : Type :=
| PyInt (n : Z)
| PyRange (n : Z)
| PyList (l : list Z).

Definition range (n : Z) : list Z :=
  List.map Z.of_nat (List.seq 0 (Z.to_nat n)).

Definition py_iter (v : pyval) : result (list Z) :=
  match v with
  | PyInt _ => Raise (TypeError "'int' object is not iterable")
  | PyRange n => Ok (range n)
  | PyList l => Ok l
  end.

(** ** [SegmentInPolygon] *)

Module SegmentInPolygon.
Section Def.
Context {F : ExactField} {S : FlatSurface F}.

(** The attributes [_start] and [_end]. *)
Record t : Type := Make { _start : TV S; _end : TV S }.

(** [SegmentInPolygon(start, end)]: both are taken as they come. *)
Definition of_pair (start end_ : TV S) : t :=
  {| _start := start; _end := end_ |}.

(** [SegmentInPolygon(start)]: forward to the boundary, and back. *)
Definition of_vector (start : TV S) : t :=
  let e := forward_to_polygon_boundary start in
  let s := forward_to_polygon_boundary e in
  {| _start := s; _end := e |}.

(** [__eq__]; the two sides are segments, so the test of their types has
    nothing to refuse. *)
Definition eqb (self other : t) : bool :=
  TV_eqb (_start self) (_start other) && TV_eqb (_end self) (_end other).

Definition start (self : t) : TV S := _start self.

Definition start_is_singular (self : t) : bool :=
  is_based_at_singularity (_start self).

Definition end_ (self : t) : TV S := _end self.

Definition end_is_singular (self : t) : bool :=
  is_based_at_singularity (_end self).

Definition polygon_label (self : t) : Z :=
  Surface.polygon_label (_start self).

Definition invert (self : t) : t := of_pair (_end self) (_start self).

Definition next (self : t) : result t :=
  if end_is_singular self then
    Raise (ValueError "Cannot continue from singularity")
  else Ok (of_vector (Surface.invert (_end self))).

Definition previous (self : t) : result t :=
  if end_is_singular self then
    Raise (ValueError "Cannot continue from singularity")
  else Ok (invert (of_vector (Surface.invert (_start self)))).
End Def.
Arguments t {F} S.
End SegmentInPolygon.

(** ** [StraightLineTrajectory] *)

Module StraightLineTrajectory.
Section Def.
Context {F : ExactField} {S : FlatSurface F}.

(** The segments, and the tangent vectors from which the trajectory goes
    on at each end; [None] where it stops at a singularity. *)
Record t : Type := Make {
  _segments : deque (SegmentInPolygon.t S);
  _forward : option (TV S);
  _backward : option (TV S)
}.

Definition segments (self : t) : deque (SegmentInPolygon.t S) :=
  _segments self.

Definition segment (self : t) (i : Z) : result (SegmentInPolygon.t S) :=
  getitem (segments self) i.

Definition combinatorial_length (self : t) : Z := len (segments self).

Definition initial_tangent_vector (self : t) : TV S :=
  SegmentInPolygon.start (first (_segments self)).

Definition terminal_tangent_vector (self : t) : TV S :=
  SegmentInPolygon.end_ (last (_segments self)).

Definition _setup_forward (self : t) : t :=
  let v := terminal_tangent_vector self in
  if is_based_at_singularity v then
    {| _segments := _segments self; _forward := None;
       _backward := _backward self |}
  else
    {| _segments := _segments self; _forward := Some (invert v);
       _backward := _backward self |}.

Definition _setup_backward (self : t) : t :=
  let v := initial_tangent_vector self in
  if is_based_at_singularity v then
    {| _segments := _segments self; _forward := _forward self;
       _backward := None |}
  else
    {| _segments := _segments self; _forward := _forward self;
       _backward := Some (invert v) |}.

(** [StraightLineTrajectory(tangent_vector)]; the two ends are set by
    [_setup_forward] and [_setup_backward]. *)
Definition init (tangent_vector : TV S) : t :=
  let seg := SegmentInPolygon.of_vector tangent_vector in
  _setup_backward
    (_setup_forward
       {| _segments := singleton seg; _forward := None;
          _backward := None |}).

Definition is_forward_separatrix (self : t) : bool :=
  match _forward self with None => true | Some _ => false end.

Definition is_backward_separatrix (self : t) : bool :=
  match _backward self with None => true | Some _ => false end.

Definition is_saddle_connection (self : t) : bool :=
  is_forward_separatrix self && is_backward_separatrix self.

Definition is_closed (self : t) : bool :=
  negb (is_forward_separatrix self) &&
  match _forward self with
  | Some f => differs_by_scaling f (initial_tangent_vector self)
  | None => false
  end.

(** The body of the first loop of [flow]: one more segment at the end. *)
Definition push_forward (self : t) : t :=
  match _forward self with
  | Some f =>
      _setup_forward
        {| _segments := append (_segments self) (SegmentInPolygon.of_vector f);
           _forward := _forward self; _backward := _backward self |}
  | None => self (* the loop tests [is_forward_separatrix] first *)
  end.

(** The body of the second loop: one more segment at the beginning. *)
Definition push_backward (self : t) : t :=
  match _backward self with
  | Some b =>
      _setup_backward
        {| _segments :=
             appendleft (_segments self)
               (SegmentInPolygon.invert (SegmentInPolygon.of_vector b));
           _forward := _forward self; _backward := _backward self |}
  | None => self (* the loop tests [is_backward_separatrix] first *)
  end.

(** The two [while] loops of [flow], with the counter [steps] they
    share.  Each round moves [steps] towards zero, so [|steps|] rounds
    of fuel let the loop reach its exit ([flow_forward_exit] and
    [flow_backward_exit] below). *)
Fixpoint flow_forward (fuel : nat) (steps : Z) (self : t) : Z * t :=
  match fuel with
  | O => (steps, self)
  | Datatypes.S fuel' =>
      if (steps >? 0)%Z && negb (is_forward_separatrix self)
         && negb (is_closed self)
      then flow_forward fuel' (steps - 1)%Z (push_forward self)
      else (steps, self)
  end.

Fixpoint flow_backward (fuel : nat) (steps : Z) (self : t) : Z * t :=
  match fuel with
  | O => (steps, self)
  | Datatypes.S fuel' =>
      if (steps <? 0)%Z && negb (is_backward_separatrix self)
         && negb (is_closed self)
      then flow_backward fuel' (steps + 1)%Z (push_backward self)
      else (steps, self)
  end.

Definition flow (self : t) (steps : Z) : t :=
  let (steps1, self1) := flow_forward (Z.to_nat steps) steps self in
  snd (flow_backward (Z.to_nat (- steps1)) steps1 self1).

(** [coding(alphabet)] of [AbstractStraightLineTrajectory], which reads
    [_segments].  [letter] is [alphabet.get], or the pair itself when
    there is no alphabet. *)
Definition code_of {L : Type} (letter : Z * Z -> option L)
    (p : Z) (pos : Position) : result (list L) :=
  do e <- get_edge pos ;;
  Ok (match letter (p, e) with Some lab => [lab] | None => [] end).

Definition coding_with {L : Type} (letter : Z * Z -> option L)
    (self : t) : result (list L) :=
  let s := first (_segments self) in
  let start := SegmentInPolygon.start s in
  do ans0 <-
    (if is_in_edge_interior (position start)
     then code_of letter (SegmentInPolygon.polygon_label s) (position start)
     else Ok []) ;;
  do ans1 <-
    mapM (fun s =>
            code_of letter (SegmentInPolygon.polygon_label s)
              (position (SegmentInPolygon.end_ s)))
         (removelast (to_list (_segments self))) ;;
  let s := last (_segments self) in
  let end_ := SegmentInPolygon.end_ s in
  do ans2 <-
    (if is_in_edge_interior (position end_)
        && negb (TV_eqb (invert end_) start)
     then code_of letter (SegmentInPolygon.polygon_label s) (position end_)
     else Ok []) ;;
  Ok (ans0 ++ List.concat ans1 ++ ans2).

(** [coding()] *)
Definition coding (self : t) : result (list (Z * Z)) :=
  coding_with (fun pe => Some pe) self.
End Def.
Arguments t {F} S.
End StraightLineTrajectory.

(** ** [StraightLineTrajectoryTranslation] *)

Module StraightLineTrajectoryTranslation.
Section Def.
Context {F : ExactField} (S : FlatSurface F).

(** A triple [(p, e, x)]: polygon label, edge, position in the edge. *)
Definition Triple : Type := (Z * Z * F)%type.

Definition triple_eqb (a b : Triple) : bool :=
  let '(p, e, x) := a in
  let '(p', e', x') := b in
  (p =? p')%Z && (e =? e')%Z && Keqb F x x'.

Definition offset (a : Triple) : F := snd a.

(** The direction [_vector] and the triples [_points]; the surface [_s]
    is [S].  The dictionary [_iets] only keeps the maps that [flow_map]
    has returned, so [_get_iet] is written as the call it saves. *)
Record t : Type := Make {
  _vector : Vec2 F;
  _points : deque Triple
}.

Definition _get_iet (self : t) (label : Z) : IET F :=
  flow_map S label (_vector self).

(** The triple of a tangent vector [start] based on the boundary of its
    polygon, as [__init__] computes it: the side (or the vertex) where
    [start] is, and its place along that side in the unit of the
    interval exchange map of the direction [vec]. *)
Definition crossing (vec : Vec2 F) (start : TV S) : result Triple :=
  let pos := position start in
  do i <- (match pos with
           | EDGE_INTERIOR _ => get_edge pos
           | VERTEX _ => get_vertex pos
           | INTERIOR => Raise (RuntimeError "PROBLEM!")
           end) ;;
  let p := polygon_label start in
  let T := flow_map S p vec in
  do x <- get_linearity_coeff
            (vsub (vertex S p (i + 1)) (vertex S p i))
            (vsub (point start) (vertex S p i)) ;;
  let x := (x * length_bot T i)%K in
  Ok (p, i, x).

(** [StraightLineTrajectoryTranslation(tangent_vector)] *)
Definition init (tangent_vector : TV S) : result t :=
  let vec := vector tangent_vector in
  let start :=
    SegmentInPolygon.start (SegmentInPolygon.of_vector tangent_vector) in
  do a <- crossing vec start ;;
  Ok {| _vector := vec; _points := singleton a |}.

(** The pairs [(label, edge)] of the triples. *)
Definition crossings (self : t) : list (Z * Z) :=
  List.map (fun a : Triple => fst a) (to_list (_points self)).

Definition _next (self : t) (a : Triple) : Triple :=
  let '(p, e, x) := a in
  let '(e, x) := forward_image (_get_iet self p) e x in
  let '(p, e) := opposite_edge S p e in
  (p, e, x).

Definition _previous (self : t) (a : Triple) : Triple :=
  let '(p, e, x) := a in
  let '(p, e) := opposite_edge S p e in
  let '(e, x) := backward_image (_get_iet self p) e x in
  (p, e, x).

Definition combinatorial_length (self : t) : Z := len (_points self).

Definition vdiv (u : Vec2 F) (a : F) : Vec2 F :=
  ((fst u / a)%K, (snd u / a)%K).

Definition segment (self : t) (i : Z) : result (SegmentInPolygon.t S) :=
  do a <- getitem (_points self) i ;;
  let '(lab, e0, x0) := a in
  let iet := _get_iet self lab in
  let '(e1, x1) := forward_image iet e0 x0 in
  let l0 := length_bot iet e0 in
  let l1 := length_top iet e1 in
  let point0 := vadd (vertex S lab e0) (vdiv (vscale x0 (edge S lab e0)) l0) in
  let point1 :=
    vadd (vertex S lab e1) (vdiv (vscale (l1 - x1)%K (edge S lab e1)) l1) in
  let v0 := tangent_vector S lab point0 (_vector self) in
  let v1 := tangent_vector S lab point1 (vneg (_vector self)) in
  Ok (SegmentInPolygon.of_pair v0 v1).

(** [segments()] iterates over the value of [combinatorial_length()]. *)
Definition segments (self : t) : result (list (SegmentInPolygon.t S)) :=
  do indices <- py_iter (PyInt (combinatorial_length self)) ;;
  mapM (segment self) indices.

Definition is_closed (self : t) : bool :=
  triple_eqb (first (_points self)) (_next self (last (_points self))).

Definition is_forward_separatrix (self : t) : bool :=
  let '(p1, e1, x1) := _next self (last (_points self)) in
  is_zero x1.

Definition is_backward_separatrix (self : t) : bool :=
  is_zero (offset (first (_points self))).

Definition is_saddle_connection (self : t) : bool :=
  is_forward_separatrix self && is_backward_separatrix self.

(** The [for] loop of [flow] for positive [steps]: [n] rounds are left,
    [a] is the current triple.  The second component of the result
    counts the calls of [_next]. *)
Fixpoint flow_forward (n : nat) (a : Triple) (self : t) : t * nat :=
  match n with
  | O => (self, O)
  | Datatypes.S n' =>
      let a' := _next self a in
      if triple_eqb a' (first (_points self)) || is_zero (offset a')
      then (self, 1%nat)
      else
        let (r, c) :=
          flow_forward n' a'
            {| _vector := _vector self;
               _points := append (_points self) a' |} in
        (r, Datatypes.S c)
  end.

(** The loop for negative [steps]; the count is that of [_previous]. *)
Fixpoint flow_backward (n : nat) (a : Triple) (self : t) : t * nat :=
  match n with
  | O => (self, O)
  | Datatypes.S n' =>
      if is_zero (offset a) then (self, O)
      else
        let a' := _previous self a in
        if triple_eqb a' (last (_points self)) then (self, 1%nat)
        else
          let (r, c) :=
            flow_backward n' a'
              {| _vector := _vector self;
                 _points := appendleft (_points self) a' |} in
          (r, Datatypes.S c)
  end.

(** [flow(steps)], with the number of steps of the map it has made. *)
Definition flow_count (self : t) (steps : Z) : t * nat :=
  if (steps >? 0)%Z then
    flow_forward (Z.to_nat steps) (last (_points self)) self
  else if (steps <? 0)%Z then
    flow_backward (Z.to_nat (- steps)) (first (_points self)) self
  else (self, O).

Definition flow (self : t) (steps : Z) : t := fst (flow_count self steps).
End Def.
Arguments t : clear implicits.
Arguments Triple : clear implicits.
End StraightLineTrajectoryTranslation.

(** ** The rationals as an exact field *)

Definition Qc_eqb (x y : Qc) : bool := Qeq_bool x y.

Lemma Qc_eqb_spec : forall x y : Qc, reflect (x = y) (Qc_eqb x y).
Proof.
  intros x y. unfold Qc_eqb.
  destruct (Qeq_bool x y) eqn:E; constructor.
  - apply Qc_is_canon. now apply Qeq_bool_eq.
  - intros ->. rewrite Qeq_bool_refl in E. discriminate.
Qed.

Definition QcField : ExactField := {|
  K := Qc;
  Kzero := Q2Qc 0;
  Kone := Q2Qc 1;
  Kadd := Qcplus;
  Kmul := Qcmult;
  Ksub := Qcminus;
  Kopp := Qcopp;
  Kdiv := Qcdiv;
  Kinv := Qcinv;
  Kth := Qcft;
  Keqb := Qc_eqb;
  Keqb_spec := Qc_eqb_spec
|}.

(** The rational [n/d] as an element of [QcField]. *)
Definition qc (n : Z) (d : positive) : QcField := Q2Qc (n # d).

(** [vec_eqb] decides the equality of vectors. *)
Lemma vec_eqb_spec (F : ExactField) (u v : Vec2 F) :
  reflect (u = v) (vec_eqb u v).
Proof.
  destruct u as [u0 u1], v as [v0 v1]. unfold vec_eqb. simpl.
  destruct (Keqb_spec F u0 v0); destruct (Keqb_spec F u1 v1);
    constructor; congruence.
Qed.

(** ** The square torus *)

(** The unit square with its opposite sides glued, over the rationals:
    the surface of the examples in the docstrings of [coding], [_next] and
    [is_saddle_connection].  The collaborators are written for this one
    surface, for the tangent vectors that the trajectories meet: based in
    the closed square, with a direction that is not parallel to a side. *)
Module SquareTorus.

Definition Qc_ltb (x y : Qc) : bool :=
  match (x ?= y)%Qc with Lt => true | _ => false end.

Definition zero : QcField := qc 0 1.
Definition one : QcField := qc 1 1.

(** Modelled from the spec: [polygon(label).vertex(i)] of the surface
    collaborator, for the unit square. *)
Definition vertex (label i : Z) : Vec2 QcField :=
  match (i mod 4)%Z with
  | 0%Z => (zero, zero)
  | 1%Z => (one, zero)
  | 2%Z => (one, one)
  | _ => (zero, one)
  end.

(** Modelled from the spec: [polygon(label).edge(i)], the vector from
    vertex [i] to the next one. *)
Definition edge (label i : Z) : Vec2 QcField :=
  vsub (vertex label (i + 1)) (vertex label i).

(** Modelled from the spec: the gluing [opposite_edge] of the surface
    collaborator; side [e] of the square is glued to side [e + 2]. *)
Definition opposite_edge (label e : Z) : Z * Z := (label, ((e + 2) mod 4)%Z).

Definition wedge_product (u v : Vec2 QcField) : QcField :=
  (fst u * snd v - snd u * fst v)%K.

Definition dot_product (u v : Vec2 QcField) : QcField :=
  (fst u * fst v + snd u * snd v)%K.

(** Modelled from the spec: the position classification of a point of
    the closed square (interior, interior of a side, vertex). *)
Definition get_point_position (p : Vec2 QcField) : Position :=
  let x := fst p in
  let y := snd p in
  let x0 := Qc_eqb x zero in
  let x1 := Qc_eqb x one in
  let y0 := Qc_eqb y zero in
  let y1 := Qc_eqb y one in
  if x0 && y0 then VERTEX 0
  else if x1 && y0 then VERTEX 1
  else if x1 && y1 then VERTEX 2
  else if x0 && y1 then VERTEX 3
  else if y0 then EDGE_INTERIOR 0
  else if x1 then EDGE_INTERIOR 1
  else if y1 then EDGE_INTERIOR 2
  else if x0 then EDGE_INTERIOR 3
  else INTERIOR.

(** Modelled from the spec: the tangent vector collaborator, a point and
    a direction pinned to a polygon, with the position of the point. *)
Record TangentVector : Type := {
  tv_label : Z;
  tv_point : Vec2 QcField;
  tv_vector : Vec2 QcField;
  tv_position : Position
}.

Definition raw (label : Z) (p v : Vec2 QcField) : TangentVector :=
  {| tv_label := label; tv_point := p; tv_vector := v;
     tv_position := get_point_position p |}.

(** Modelled from the spec: [tangent_vector(label, point, direction)] of
    the surface collaborator.  A vector based in the interior of a side
    and pointing out of the square is carried to the glued side, where it
    points into the square. *)
Definition tangent_vector (label : Z) (p v : Vec2 QcField) : TangentVector :=
  match get_point_position p with
  | EDGE_INTERIOR e =>
      if Qc_ltb (wedge_product (edge label e) v) zero then
        let '(label2, e2) := opposite_edge label e in
        let shift := vsub (vertex label2 e2) (vertex label (e + 1)) in
        raw label2 (vadd p shift) v
      else raw label p v
  | _ => raw label p v
  end.

Definition position_eqb (a b : Position) : bool :=
  match a, b with
  | INTERIOR, INTERIOR => true
  | EDGE_INTERIOR e, EDGE_INTERIOR e' => (e =? e')%Z
  | VERTEX v, VERTEX v' => (v =? v')%Z
  | _, _ => false
  end.

Definition eqb (a b : TangentVector) : bool :=
  (tv_label a =? tv_label b)%Z
  && vec_eqb (tv_point a) (tv_point b)
  && vec_eqb (tv_vector a) (tv_vector b)
  && position_eqb (tv_position a) (tv_position b).

(** Modelled from the spec: [is_based_at_singularity()], the position is
    a vertex. *)
Definition is_based_at_singularity (a : TangentVector) : bool :=
  is_vertex (tv_position a).

(** The time after which the coordinate [x], moving at speed [d], leaves
    the interval from 0 to 1; [None] when it does not move. *)
Definition exit_time (x d : QcField) : option QcField :=
  if Qc_ltb zero d then Some ((one - x) / d)%K
  else if Qc_ltb d zero then Some ((zero - x) / d)%K
  else None.

Definition min_time (s t : option QcField) : option QcField :=
  match s, t with
  | Some a, Some b => Some (if Qc_ltb b a then b else a)
  | Some a, None => Some a
  | None, t => t
  end.

(** Modelled from the spec: [forward_to_polygon_boundary()], the vector
    flows until it leaves the square; the result is based at that
    boundary point and points backward. *)
Definition forward_to_polygon_boundary (a : TangentVector) : TangentVector :=
  let p := tv_point a in
  let v := tv_vector a in
  match min_time (exit_time (fst p) (fst v)) (exit_time (snd p) (snd v)) with
  | Some t => raw (tv_label a) (vadd p (vscale t v)) (vneg v)
  | None => a
  end.

(** Modelled from the spec: [invert()], the same point with the opposite
    direction, as the surface pins it. *)
Definition invert (a : TangentVector) : TangentVector :=
  tangent_vector (tv_label a) (tv_point a) (vneg (tv_vector a)).

(** Modelled from the spec: [differs_by_scaling(other)], same polygon,
    same point, same direction up to a positive factor. *)
Definition differs_by_scaling (a b : TangentVector) : bool :=
  (tv_label a =? tv_label b)%Z
  && vec_eqb (tv_point a) (tv_point b)
  && Qc_eqb (wedge_product (tv_vector a) (tv_vector b)) zero
  && Qc_ltb zero (dot_product (tv_vector a) (tv_vector b)).

(** Modelled from the spec: [polygon(label).flow_map(direction)] for a
    direction [(a, b)] with [a > 0] and [b > 0].  The flow enters the
    square through side 3 (length [a]) then side 0 (length [b]) and
    leaves it through side 2 (length [b]) then side 1 (length [a]); a
    position is measured from the start of the side at the bottom, and
    from its end at the top, so that it reads the same on the glued
    side. *)
Definition flow_map (label : Z) (d : Vec2 QcField) : IET QcField :=
  let a := fst d in
  let b := snd d in
  {| forward_image := fun e x =>
       let g := if (e =? 3)%Z then x else (a + x)%K in
       if Qc_ltb g b then (2%Z, g) else (1%Z, (g - b)%K);
     backward_image := fun e x =>
       let g := if (e =? 2)%Z then x else (b + x)%K in
       if Qc_ltb g a then (3%Z, g) else (0%Z, (g - a)%K);
     length_bot := fun e => if (e =? 3)%Z then a else b;
     length_top := fun e => if (e =? 2)%Z then b else a |}.

Lemma position_eqb_spec (a b : Position) : reflect (a = b) (position_eqb a b).
Proof.
  destruct a as [|e|v], b as [|e'|v']; simpl;
    try (constructor; congruence).
  - destruct (Z.eqb_spec e e'); constructor; congruence.
  - destruct (Z.eqb_spec v v'); constructor; congruence.
Qed.

Lemma eqb_spec (a b : TangentVector) : reflect (a = b) (eqb a b).
Proof.
  destruct a as [l p v s], b as [l' p' v' s']. unfold eqb. simpl.
  destruct (Z.eqb_spec l l'); simpl; [|constructor; congruence].
  destruct (vec_eqb_spec QcField p p'); simpl; [|constructor; congruence].
  destruct (vec_eqb_spec QcField v v'); simpl; [|constructor; congruence].
  destruct (position_eqb_spec s s'); constructor; congruence.
Qed.

Definition surface : FlatSurface QcField := {|
  TV := TangentVector;
  TV_eqb := eqb;
  TV_eqb_spec := eqb_spec;
  Surface.polygon_label := tv_label;
  Surface.point := tv_point;
  Surface.vector := tv_vector;
  Surface.position := tv_position;
  Surface.is_based_at_singularity := is_based_at_singularity;
  Surface.forward_to_polygon_boundary := forward_to_polygon_boundary;
  Surface.invert := invert;
  Surface.differs_by_scaling := differs_by_scaling;
  Surface.tangent_vector := tangent_vector;
  Surface.opposite_edge := opposite_edge;
  Surface.vertex := vertex;
  Surface.edge := edge;
  Surface.flow_map := flow_map
|}.

(** [surface.tangent_vector(0, (x, y), (a, b))] *)
Definition tv (x y a b : QcField) : TV surface :=
  tangent_vector 0 (x, y) (a, b).

(** The tangent vector of the docstring of [coding]: from [(1/2, 0)] in
    the direction [(5, 6)].  Its trajectory is a saddle connection of ten
    segments. *)
Definition v_56 : TV surface := tv (qc 1 2) (qc 0 1) (qc 5 1) (qc 6 1).

Definition saddle_56 : StraightLineTrajectory.t surface :=
  StraightLineTrajectory.flow
    (StraightLineTrajectory.flow (StraightLineTrajectory.init v_56) 10) (-10).

Definition segments_56 : list (SegmentInPolygon.t surface) :=
  to_list (StraightLineTrajectory.segments saddle_56).

(** The tangent vector of the docstring of [coding] whose trajectory is
    closed: from [(1/5, 1/7)] in the direction [(1, 1)]. *)
Definition v_11 : TV surface := tv (qc 1 5) (qc 1 7) (qc 1 1) (qc 1 1).

Definition closed_11 : StraightLineTrajectory.t surface :=
  StraightLineTrajectory.flow (StraightLineTrajectory.init v_11) 10.

(** The tangent vector of the docstring of [is_saddle_connection]: from
    [(1/3, 2/3)] in the direction [(1, 2)]; its segment goes from the
    vertex [(0, 0)] to [(1/2, 1)]. *)
Definition v_12 : TV surface := tv (qc 1 3) (qc 2 3) (qc 1 1) (qc 2 1).

Definition seg_12 : SegmentInPolygon.t surface :=
  SegmentInPolygon.of_vector v_12.

(** In the same direction from [(3/4, 1/2)]: the segment goes from
    [(1/2, 0)] to the vertex [(1, 1)]. *)
Definition w_12 : TV surface := tv (qc 3 4) (qc 1 2) (qc 1 1) (qc 2 1).

Definition seg_12' : SegmentInPolygon.t surface :=
  SegmentInPolygon.of_vector w_12.

(** The trajectories of triples that [init] returns on these vectors
    ([init_56], [init_12] and [init_12'] below). *)
Definition triples_56 : StraightLineTrajectoryTranslation.t QcField :=
  {| StraightLineTrajectoryTranslation._vector := (qc 5 1, qc 6 1);
     StraightLineTrajectoryTranslation._points := singleton (0, 0, qc 3 1)%Z |}.

Definition triples_12 : StraightLineTrajectoryTranslation.t QcField :=
  {| StraightLineTrajectoryTranslation._vector := (qc 1 1, qc 2 1);
     StraightLineTrajectoryTranslation._points := singleton (0, 0, qc 0 1)%Z |}.

Definition triples_12' : StraightLineTrajectoryTranslation.t QcField :=
  {| StraightLineTrajectoryTranslation._vector := (qc 1 1, qc 2 1);
     StraightLineTrajectoryTranslation._points := singleton (0, 0, qc 1 1)%Z |}.
End SquareTorus.

(** * Properties *)

(** ** Facts on the field *)

Section FieldFacts.
Variable F : ExactField.

Add Field Ffield : (Kth F).

Lemma truthy_true (x : F) : truthy x = true <-> x <> 0%K.
Proof.
  unfold truthy. destruct (Keqb_spec F x 0%K); simpl; split; congruence.
Qed.

Lemma truthy_false (x : F) : truthy x = false <-> x = 0%K.
Proof.
  unfold truthy. destruct (Keqb_spec F x 0%K); simpl; split; congruence.
Qed.

Lemma Keqb_refl (x : F) : Keqb F x x = true.
Proof. destruct (Keqb_spec F x x); congruence. Qed.

Lemma Keqb_neq (x y : F) : x <> y -> Keqb F x y = false.
Proof. destruct (Keqb_spec F x y); congruence. Qed.

Lemma div_mul_cancel (a x : F) : x <> 0%K -> (a * x / x)%K = a.
Proof. intros Hx. field. exact Hx. Qed.

Lemma mul_div_cancel (y x : F) : x <> 0%K -> (y / x * x)%K = y.
Proof. intros Hx. field. exact Hx. Qed.

Lemma mul_zero_r (a : F) : (a * 0)%K = 0%K.
Proof. ring. Qed.

(** The helper on a multiple of a non zero vector. *)
Lemma get_linearity_coeff_scale (u : Vec2 F) (a : F) :
  u <> vzero -> get_linearity_coeff u (vscale a u) = Ok a.
Proof.
  destruct u as [u0 u1]. intros Hu.
  unfold get_linearity_coeff, vscale. simpl.
  destruct (truthy u0) eqn:E0.
  - apply truthy_true in E0. rewrite (div_mul_cancel a _ E0).
    now rewrite Keqb_refl.
  - apply truthy_false in E0. subst u0. rewrite mul_zero_r.
    assert (E : truthy (0%K : F) = false) by now apply truthy_false.
    rewrite E.
    destruct (truthy u1) eqn:E1.
    + apply truthy_true in E1. now rewrite (div_mul_cancel a _ E1).
    + apply truthy_false in E1. subst u1. now elim Hu.
Qed.

(** When the helper returns, its result is the coefficient. *)
Lemma get_linearity_coeff_sound (u v : Vec2 F) (a : F) :
  get_linearity_coeff u v = Ok a -> v = vscale a u.
Proof.
  destruct u as [u0 u1], v as [v0 v1].
  unfold get_linearity_coeff, vscale. simpl.
  destruct (truthy u0) eqn:E0.
  - apply truthy_true in E0.
    destruct (Keqb_spec F v1 (v0 / u0 * u1)%K); simpl; [|discriminate].
    intros [= <-]. now rewrite (mul_div_cancel v0 _ E0), <- e.
  - apply truthy_false in E0. subst u0.
    destruct (truthy v0) eqn:F0; [discriminate|].
    apply truthy_false in F0. subst v0.
    destruct (truthy u1) eqn:E1; [|discriminate].
    apply truthy_true in E1.
    intros [= <-]. rewrite (mul_div_cancel v1 _ E1). now rewrite mul_zero_r.
Qed.

(** On a non zero [u] the helper fails exactly with [non colinear]. *)
Lemma get_linearity_coeff_nonzero (u v : Vec2 F) :
  u <> vzero ->
  (exists a, get_linearity_coeff u v = Ok a) \/
  get_linearity_coeff u v = Raise (ValueError "non colinear").
Proof.
  destruct u as [u0 u1], v as [v0 v1]. intros Hu.
  unfold get_linearity_coeff. simpl.
  destruct (truthy u0) eqn:E0.
  - destruct (Keqb F v1 (v0 / u0 * u1)%K); simpl; eauto.
  - destruct (truthy v0); auto.
    destruct (truthy u1) eqn:E1; eauto.
    apply truthy_false in E0, E1. subst. now elim Hu.
Qed.

(** On the zero vector the helper looks at [v[0]] first. *)
Lemma get_linearity_coeff_zero (v : Vec2 F) :
  get_linearity_coeff (vzero) v =
  if truthy (fst v) then Raise (ValueError "non colinear")
  else Raise (ValueError "zero vector").
Proof.
  unfold get_linearity_coeff, vzero. simpl.
  assert (E : truthy (0%K : F) = false) by now apply truthy_false.
  now rewrite E.
Qed.
End FieldFacts.

(** ** Deques *)

Section DequeFacts.
Context {A : Type}.

Lemma to_list_append (d : deque A) (a : A) :
  to_list (append d a) = to_list d ++ [a].
Proof. reflexivity. Qed.

Lemma to_list_appendleft (d : deque A) (a : A) :
  to_list (appendleft d a) = a :: to_list d.
Proof. reflexivity. Qed.

Lemma first_append (d : deque A) (a : A) : first (append d a) = first d.
Proof. reflexivity. Qed.

Lemma last_append (d : deque A) (a : A) : last (append d a) = a.
Proof. unfold last, append. simpl. apply last_last. Qed.

Lemma last_nonempty (l : list A) (y a b : A) :
  List.last (y :: l) a = List.last (y :: l) b.
Proof.
  revert y. induction l as [|z l IH]; intros y; [reflexivity|].
  change (List.last (z :: l) a = List.last (z :: l) b). apply IH.
Qed.

Lemma last_cons (l : list A) (x a : A) :
  List.last (x :: l) a = List.last l x.
Proof.
  destruct l as [|y l]; [reflexivity|].
  change (List.last (y :: l) a = List.last (y :: l) x).
  apply last_nonempty.
Qed.

Lemma last_appendleft (d : deque A) (a : A) :
  last (appendleft d a) = last d.
Proof. unfold last, appendleft. simpl. apply last_cons. Qed.

Lemma last_to_list (d : deque A) (x : A) :
  List.last (to_list d) x = last d.
Proof. unfold last, to_list. apply last_cons. Qed.

Lemma len_append (d : deque A) (a : A) : len (append d a) = (len d + 1)%Z.
Proof.
  unfold len. rewrite to_list_append, length_app, Nat2Z.inj_add.
  reflexivity.
Qed.

Lemma len_appendleft (d : deque A) (a : A) :
  len (appendleft d a) = (len d + 1)%Z.
Proof.
  unfold len. rewrite to_list_appendleft. cbn [List.length].
  rewrite Nat2Z.inj_succ. lia.
Qed.

End DequeFacts.

(** ** Segments *)

Section SegmentFacts.
Context {F : ExactField} {S : FlatSurface F}.

Lemma TV_eqb_refl (v : TV S) : TV_eqb v v = true.
Proof. destruct (TV_eqb_spec v v); congruence. Qed.

Lemma segment_eqb_spec (s s' : SegmentInPolygon.t S) :
  reflect (s = s') (SegmentInPolygon.eqb s s').
Proof.
  destruct s as [a b], s' as [a' b']. unfold SegmentInPolygon.eqb. simpl.
  destruct (TV_eqb_spec a a'); destruct (TV_eqb_spec b b');
    constructor; congruence.
Qed.

(** The segment that follows a segment, and the one that comes before
    it, as [next()] and [flow] build them. *)
Definition following (s : SegmentInPolygon.t S) : SegmentInPolygon.t S :=
  SegmentInPolygon.of_vector (invert (SegmentInPolygon.end_ s)).

Definition preceding (s : SegmentInPolygon.t S) : SegmentInPolygon.t S :=
  SegmentInPolygon.invert
    (SegmentInPolygon.of_vector (invert (SegmentInPolygon.start s))).

(** [next()] on a segment that does not end at a vertex. *)
Lemma next_following (s : SegmentInPolygon.t S) :
  SegmentInPolygon.end_is_singular s = false ->
  SegmentInPolygon.next s = Ok (following s).
Proof. intros H. unfold SegmentInPolygon.next. now rewrite H. Qed.

(** C9. A segment inverted twice is equal, for [==], to the segment:
    [s.invert().invert() == s]. *)
Theorem invert_invert (s : SegmentInPolygon.t S) :
  SegmentInPolygon.eqb (SegmentInPolygon.invert (SegmentInPolygon.invert s)) s
  = true.
Proof.
  unfold SegmentInPolygon.eqb, SegmentInPolygon.invert,
    SegmentInPolygon.of_pair. simpl.
  now rewrite !TV_eqb_refl.
Qed.

(** C2. [previous()] looks at the end of the segment, not at its start:
    on a segment that starts inside a side and ends at a vertex it raises
    the error of the singular endpoint. *)
Theorem previous_raises_on_singular_end (s : SegmentInPolygon.t S) :
  SegmentInPolygon.start_is_singular s = false ->
  SegmentInPolygon.end_is_singular s = true ->
  SegmentInPolygon.previous s =
  Raise (ValueError "Cannot continue from singularity").
Proof.
  intros _ He. unfold SegmentInPolygon.previous. now rewrite He.
Qed.

(** C5. When the segment that follows [s] ends at a vertex,
    [s.next().previous()] raises instead of giving [s] back. *)
Theorem next_previous_raises (s s' : SegmentInPolygon.t S) :
  SegmentInPolygon.next s = Ok s' ->
  SegmentInPolygon.end_is_singular s' = true ->
  (do n <- SegmentInPolygon.next s ;; SegmentInPolygon.previous n) =
  Raise (ValueError "Cannot continue from singularity").
Proof.
  intros -> He. simpl. unfold SegmentInPolygon.previous. now rewrite He.
Qed.
End SegmentFacts.

(** ** The segment based trajectory *)

Section TrajectoryFacts.
Context {F : ExactField} {S : FlatSurface F}.
Import StraightLineTrajectory.

(** The fuel given to the loops lets them reach their exit: once it is
    spent, the counter has reached zero. *)
Lemma flow_forward_exit (fuel : nat) (steps : Z) (self : t S) :
  (steps <= Z.of_nat fuel)%Z ->
  let (steps', self') := flow_forward fuel steps self in
  ((steps' >? 0)%Z && negb (is_forward_separatrix self')
   && negb (is_closed self')) = false.
Proof.
  revert steps self. induction fuel as [|fuel IH]; intros steps self Hle.
  - simpl. replace (steps >? 0)%Z with false; [reflexivity|]. lia.
  - cbn [flow_forward].
    destruct ((steps >? 0)%Z && negb (is_forward_separatrix self)
              && negb (is_closed self)) eqn:E.
    + apply IH. lia.
    + exact E.
Qed.

Lemma flow_backward_exit (fuel : nat) (steps : Z) (self : t S) :
  (- steps <= Z.of_nat fuel)%Z ->
  let (steps', self') := flow_backward fuel steps self in
  ((steps' <? 0)%Z && negb (is_backward_separatrix self')
   && negb (is_closed self')) = false.
Proof.
  revert steps self. induction fuel as [|fuel IH]; intros steps self Hle.
  - simpl. replace (steps <? 0)%Z with false; [reflexivity|]. lia.
  - cbn [flow_backward].
    destruct ((steps <? 0)%Z && negb (is_backward_separatrix self)
              && negb (is_closed self)) eqn:E.
    + apply IH. lia.
    + exact E.
Qed.

Lemma flow_forward_stuck (fuel : nat) (steps : Z) (self : t S) :
  ((steps >? 0)%Z && negb (is_forward_separatrix self)
   && negb (is_closed self)) = false ->
  flow_forward fuel steps self = (steps, self).
Proof. intros E. destruct fuel; simpl; [reflexivity|]. now rewrite E. Qed.

Lemma flow_backward_stuck (fuel : nat) (steps : Z) (self : t S) :
  ((steps <? 0)%Z && negb (is_backward_separatrix self)
   && negb (is_closed self)) = false ->
  flow_backward fuel steps self = (steps, self).
Proof. intros E. destruct fuel; simpl; [reflexivity|]. now rewrite E. Qed.

Lemma flow_stuck (self : t S) (steps : Z) :
  ((steps >? 0)%Z && negb (is_forward_separatrix self)
   && negb (is_closed self)) = false ->
  ((steps <? 0)%Z && negb (is_backward_separatrix self)
   && negb (is_closed self)) = false ->
  flow self steps = self.
Proof.
  intros Ef Eb. unfold flow.
  rewrite (flow_forward_stuck _ _ _ Ef).
  now rewrite (flow_backward_stuck _ _ _ Eb).
Qed.

(** C6. Once [is_closed()] holds, [flow(n)] with [n > 0] appends no
    segment: the segments and [combinatorial_length()] stay as they
    are. *)
Theorem flow_closed_length (self : t S) (n : Z) :
  is_closed self = true ->
  (n > 0)%Z ->
  segments (flow self n) = segments self /\
  combinatorial_length (flow self n) = combinatorial_length self.
Proof.
  intros Hc Hn.
  assert (E : flow self n = self).
  { apply flow_stuck.
    - rewrite Hc. simpl. now rewrite andb_false_r.
    - replace (n <? 0)%Z with false; [reflexivity|]. lia. }
  now rewrite E.
Qed.
End TrajectoryFacts.

(** ** The interval exchange based trajectory *)

(** [chain f a l]: the list [l] is [f a], [f (f a)], and so on. *)
Fixpoint chain {A : Type} (f : A -> A) (a : A) (l : list A) : Prop :=
  match l with
  | [] => True
  | b :: l' => b = f a /\ chain f b l'
  end.

Lemma chain_ext {A : Type} (f g : A -> A) (a : A) (l : list A) :
  (forall x, f x = g x) -> chain f a l -> chain g a l.
Proof.
  intros E. revert a. induction l as [|b l IH]; intros a; simpl; [trivial|].
  intros [-> H]. split; [apply E | now apply IH].
Qed.

Section TranslationFacts.
Context {F : ExactField} (S : FlatSurface F).
Import StraightLineTrajectoryTranslation.

Lemma triple_eqb_spec (a b : Triple F) : reflect (a = b) (triple_eqb a b).
Proof.
  destruct a as [[p e] x], b as [[p' e'] x']. unfold triple_eqb.
  destruct (Z.eqb_spec p p'); simpl; [|constructor; congruence].
  destruct (Z.eqb_spec e e'); simpl; [|constructor; congruence].
  destruct (Keqb_spec F x x'); constructor; congruence.
Qed.

Lemma triple_eqb_sym (a b : Triple F) : triple_eqb a b = triple_eqb b a.
Proof.
  destruct (triple_eqb_spec a b), (triple_eqb_spec b a); congruence.
Qed.

(** [_next] and [_previous] read the direction of the trajectory only. *)
Lemma _next_vector (self self' : t F) (a : Triple F) :
  _vector self = _vector self' -> _next S self a = _next S self' a.
Proof.
  intros E. unfold _next, _get_iet. now rewrite E.
Qed.

Lemma _previous_vector (self self' : t F) (a : Triple F) :
  _vector self = _vector self' -> _previous S self a = _previous S self' a.
Proof.
  intros E. unfold _previous, _get_iet. now rewrite E.
Qed.

(** Equality of two trajectories of triples, as a test. *)
Fixpoint triples_eqb (l l' : list (Triple F)) : bool :=
  match l, l' with
  | [], [] => true
  | a :: l, a' :: l' => triple_eqb a a' && triples_eqb l l'
  | _, _ => false
  end.

Definition same (self other : t F) : bool :=
  vec_eqb (_vector self) (_vector other)
  && triples_eqb (to_list (_points self)) (to_list (_points other)).

Lemma triples_eqb_eq (l l' : list (Triple F)) :
  triples_eqb l l' = true -> l = l'.
Proof.
  revert l'. induction l as [|a l IH]; intros [|a' l']; simpl;
    try discriminate; [reflexivity|].
  intros H. apply andb_true_iff in H. destruct H as [H1 H2].
  destruct (triple_eqb_spec a a'); [subst|discriminate].
  now rewrite (IH l' H2).
Qed.

Lemma same_eq (self other : t F) : same self other = true -> self = other.
Proof.
  destruct self as [v [a l]], other as [v' [a' l']]. unfold same, to_list.
  cbn [_vector _points first rest]. intros H.
  apply andb_true_iff in H. destruct H as [H1 H2].
  destruct (vec_eqb_spec F v v'); [subst|discriminate].
  apply triples_eqb_eq in H2. now injection H2 as -> ->.
Qed.

(** [init] returns the trajectory [self]. *)
Lemma init_returns (v : TV S) (self : t F) :
  match init S v with Ok u => same u self | Raise _ => false end = true ->
  init S v = Ok self.
Proof.
  destruct (init S v) as [u|e]; [|discriminate].
  intros H. now rewrite (same_eq u self H).
Qed.

(** The test that ends the forward loop on the new triple [b]. *)
Definition stops (self : t F) (b : Triple F) : bool :=
  triple_eqb b (first (_points self)) || is_zero (offset b).

(** The forward loop appends the successive images of [a] as long as
    none of them stops it, and calls [_next] once for each of them and
    once more for the triple that stops it. *)
Lemma flow_forward_spec (n : nat) (a : Triple F) (self : t F) :
  exists added,
    to_list (_points (fst (flow_forward S n a self)))
    = to_list (_points self) ++ added /\
    chain (_next S self) a added /\
    Forall (fun b => stops self b = false) added /\
    let c := snd (flow_forward S n a self) in
    (c <= n)%nat /\
    ((c = n /\ List.length added = n) \/
     (c = Datatypes.S (List.length added) /\
      stops self (_next S self (List.last added a)) = true)).
Proof.
  revert a self. induction n as [|n IH]; intros a self.
  - exists []. rewrite app_nil_r. cbn [flow_forward fst snd chain List.length].
    split; [reflexivity|]. split; [exact I|]. split; [constructor|].
    split; [lia|]. left. now split.
  - cbn [flow_forward].
    fold (stops self (_next S self a)).
    destruct (stops self (_next S self a)) eqn:E.
    + exists []. rewrite app_nil_r. cbn [fst snd chain List.length List.last].
      split; [reflexivity|]. split; [exact I|]. split; [constructor|].
      split; [lia|]. right. now split.
    + set (self' := {| _vector := _vector self;
                       _points := append (_points self) (_next S self a) |}).
      destruct (IH (_next S self a) self') as (added & Hl & Hc & Hf & Hn).
      destruct (flow_forward S n (_next S self a) self') as [r c].
      cbn [fst snd] in *.
      assert (Ev : forall x, _next S self' x = _next S self x)
        by (intros x; now apply _next_vector).
      exists (_next S self a :: added). repeat split.
      * rewrite Hl. unfold self'. cbn [_points].
        rewrite to_list_append, <- app_assoc. reflexivity.
      * now apply (chain_ext (_next S self')).
      * constructor; [exact E | exact Hf].
      * lia.
      * rewrite last_cons. cbn [List.length].
        destruct Hn as [_ [[-> ->] | [-> Hs]]]; [left; now split|].
        right. split; [reflexivity|]. now rewrite <- Ev.
Qed.

(** C8. For [steps > 0], [flow(steps)] calls [_next] at most [steps]
    times.  It appends the successive images of the last triple; none of
    the triples it appends is the first stored triple or has offset
    zero.  When it stops before [steps] triples are appended, the triple
    computed last is the first stored triple or has offset zero, and it
    is not appended. *)
Theorem flow_forward_stops_early (self : t F) (steps : Z) :
  (steps > 0)%Z ->
  exists added,
    to_list (_points (flow S self steps)) = to_list (_points self) ++ added /\
    chain (_next S self) (last (_points self)) added /\
    Forall (fun b => triple_eqb b (first (_points self)) = false /\
                     is_zero (offset b) = false) added /\
    let calls := snd (flow_count S self steps) in
    (Z.of_nat calls <= steps)%Z /\
    ((Z.of_nat calls = steps /\ List.length added = calls) \/
     (calls = Datatypes.S (List.length added) /\
      let b := _next S self (List.last added (last (_points self))) in
      triple_eqb b (first (_points self)) || is_zero (offset b) = true)).
Proof.
  intros Hs. unfold flow, flow_count.
  replace (steps >? 0)%Z with true by lia.
  destruct (flow_forward_spec (Z.to_nat steps) (last (_points self)) self)
    as (added & Hl & Hc & Hf & Hle & Hn).
  exists added. repeat split; auto.
  - eapply Forall_impl; [|exact Hf].
    intros b Hb. unfold stops in Hb. now apply orb_false_iff in Hb.
  - cbn zeta. lia.
  - destruct Hn as [[E1 E2] | [E1 E2]]; [left | right].
    + split; [rewrite E1; lia | congruence].
    + split; [exact E1 | exact E2].
Qed.

Lemma is_forward_separatrix_offset (self : t F) :
  is_forward_separatrix S self
  = is_zero (offset (_next S self (last (_points self)))).
Proof.
  unfold is_forward_separatrix.
  now destruct (_next S self (last (_points self))) as [[p e] x].
Qed.

(** A forward separatrix is not extended forward. *)
Lemma flow_forward_separatrix (self : t F) (steps : Z) :
  is_forward_separatrix S self = true -> (steps > 0)%Z ->
  flow S self steps = self.
Proof.
  intros Hf Hs. rewrite is_forward_separatrix_offset in Hf.
  unfold flow, flow_count. replace (steps >? 0)%Z with true by lia.
  destruct (Z.to_nat steps) as [|n]; [reflexivity|].
  cbn [flow_forward]. rewrite Hf, orb_true_r. reflexivity.
Qed.

(** A backward separatrix is not extended backward. *)
Lemma flow_backward_separatrix (self : t F) (steps : Z) :
  is_backward_separatrix self = true -> (steps < 0)%Z ->
  flow S self steps = self.
Proof.
  intros Hb Hs. unfold is_backward_separatrix in Hb.
  unfold flow, flow_count. replace (steps >? 0)%Z with false by lia.
  replace (steps <? 0)%Z with true by lia.
  destruct (Z.to_nat (- steps)) as [|n]; [reflexivity|].
  cbn [flow_backward]. now rewrite Hb.
Qed.

(** C4. [is_backward_separatrix()] tests the offset of the first stored
    triple itself, without a step of [_previous];
    [is_forward_separatrix()] tests the offset of the image by [_next] of
    the last stored triple.  These are the tests of [flow]: it leaves a
    backward separatrix as it is for [steps < 0], and a forward
    separatrix for [steps > 0]. *)
Theorem separatrix_tests (self : t F) :
  is_backward_separatrix self = is_zero (offset (first (_points self))) /\
  is_forward_separatrix S self
  = is_zero (offset (_next S self (last (_points self)))) /\
  (is_backward_separatrix self = true ->
   forall steps, (steps < 0)%Z -> flow S self steps = self) /\
  (is_forward_separatrix S self = true ->
   forall steps, (steps > 0)%Z -> flow S self steps = self).
Proof.
  split; [reflexivity|]. split; [apply is_forward_separatrix_offset|].
  split; intros H steps Hs.
  - now apply flow_backward_separatrix.
  - now apply flow_forward_separatrix.
Qed.

(** A saddle connection is left as it is by [flow]. *)
Lemma flow_saddle_connection (self : t F) (steps : Z) :
  is_saddle_connection S self = true -> flow S self steps = self.
Proof.
  unfold is_saddle_connection. intros H.
  apply andb_true_iff in H. destruct H as [Hf Hb].
  destruct (Z.lt_trichotomy steps 0) as [Hs|[->|Hs]].
  - now apply flow_backward_separatrix.
  - reflexivity.
  - apply flow_forward_separatrix; [exact Hf | lia].
Qed.

(** C7. On a saddle connection, [flow(steps)] changes nothing, whatever
    the sign of [steps]: the trajectory made of segments keeps its
    segments and its two ends, the one made of triples keeps its
    triples.  [flow] returns in both. *)
Theorem saddle_connection_flow_noop
    (l : StraightLineTrajectory.t S) (self : t F) (steps : Z) :
  (StraightLineTrajectory.is_saddle_connection l = true ->
   StraightLineTrajectory.flow l steps = l) /\
  (is_saddle_connection S self = true -> flow S self steps = self).
Proof.
  split; [|apply flow_saddle_connection].
  unfold StraightLineTrajectory.is_saddle_connection. intros H.
  apply andb_true_iff in H. destruct H as [Hf Hb].
  apply flow_stuck.
  - rewrite Hf. simpl. now rewrite andb_false_r.
  - rewrite Hb. simpl. now rewrite andb_false_r.
Qed.

(** C10. [segments()] raises a [TypeError]: it iterates over the integer
    that [combinatorial_length()] returns. *)
Theorem segments_raises (self : t F) :
  segments S self = Raise (TypeError "'int' object is not iterable").
Proof. reflexivity. Qed.
End TranslationFacts.

(** ** Agreement of the two trajectories *)

Section DequeForall.
Context {A B : Type}.

Lemma len_length (d : deque A) (e : deque B) :
  List.length (to_list d) = List.length (to_list e) -> len d = len e.
Proof. unfold len. now intros ->. Qed.

Lemma Forall2_last (R : A -> B -> Prop) (l : list A) (l' : list B)
    (x : A) (y : B) :
  Forall2 R l l' -> R x y -> R (List.last l x) (List.last l' y).
Proof.
  intros H. revert x y. induction H as [|a b l l' Hab H IH]; intros x y Hxy.
  - exact Hxy.
  - rewrite !last_cons. now apply IH.
Qed.

Lemma Forall2_deque_first (R : A -> B -> Prop) (d : deque A) (e : deque B) :
  Forall2 R (to_list d) (to_list e) -> R (first d) (first e).
Proof. intros H. now inversion H. Qed.

Lemma Forall2_deque_last (R : A -> B -> Prop) (d : deque A) (e : deque B) :
  Forall2 R (to_list d) (to_list e) -> R (last d) (last e).
Proof.
  intros H. inversion H as [|a b l l' Hab Hl Ea Eb]. subst.
  unfold last. now apply Forall2_last.
Qed.

Lemma Forall_deque_first (P : A -> Prop) (d : deque A) :
  Forall P (to_list d) -> P (first d).
Proof. intros H. now inversion H. Qed.

Lemma last_In (l : list A) (a x : A) : In (List.last (a :: l) x) (a :: l).
Proof.
  revert a. induction l as [|b l IH]; intros a; [now left|].
  change (In (List.last (b :: l) x) (a :: b :: l)). right. apply IH.
Qed.

Lemma Forall_deque_last (P : A -> Prop) (d : deque A) :
  Forall P (to_list d) -> P (last d).
Proof.
  intros H. rewrite <- (last_to_list d (first d)).
  rewrite Forall_forall in H. apply H. apply last_In.
Qed.
End DequeForall.

Section Agreement.
Context {F : ExactField} (S : FlatSurface F).
Import StraightLineTrajectoryTranslation.

(** The direction of the trajectories. *)
Variable d : Vec2 F.

Local Abbreviation Segment := (SegmentInPolygon.t S).
Local Abbreviation start := SegmentInPolygon.start.
Local Abbreviation end_ := SegmentInPolygon.end_.
Local Abbreviation of_vector := SegmentInPolygon.of_vector.

(** [_next] and [_previous] in the direction [d]. *)
Definition step (a : Triple F) : Triple F :=
  _next S {| _vector := d; _points := singleton a |} a.

Definition step_back (a : Triple F) : Triple F :=
  _previous S {| _vector := d; _points := singleton a |} a.

(** The triple [a] is that of the start of the segment [s]. *)
Definition matches (s : Segment) (a : Triple F) : Prop :=
  crossing S d (start s) = Ok a.

(** What the collaborators owe to the two classes on a set [G] of
    segments: the interval exchange maps of the polygons follow the
    tangent vectors.  The image of a triple has offset zero exactly when
    the segment ends at a vertex, and is the triple of the following
    segment otherwise; a triple has offset zero exactly when its segment
    starts at a vertex, and its preimage is the triple of the preceding
    segment otherwise.  The tangent vector from which a segment is
    continued and the start of the segment built from it are the same up
    to scaling; and the triple of [__init__] names the start of a segment
    up to scaling: two starts differ by scaling exactly when their
    triples are equal. *)
Record Coherent (G : Segment -> Prop) : Prop := {
  co_forward : forall s a, G s -> matches s a ->
    is_zero (offset (step a)) = SegmentInPolygon.end_is_singular s /\
    (SegmentInPolygon.end_is_singular s = false ->
     G (following s) /\ matches (following s) (step a) /\
     step_back (step a) = a);
  co_backward : forall s a, G s -> matches s a ->
    is_zero (offset a) = SegmentInPolygon.start_is_singular s /\
    (SegmentInPolygon.start_is_singular s = false ->
     G (preceding s) /\ matches (preceding s) (step_back a) /\
     step (step_back a) = a);
  co_continue : forall s s0, G s -> G s0 ->
    SegmentInPolygon.end_is_singular s = false ->
    differs_by_scaling (invert (end_ s)) (start s0)
    = differs_by_scaling (start (following s)) (start s0);
  co_triples : forall s s0 a a0, G s -> G s0 -> matches s a -> matches s0 a0 ->
    differs_by_scaling (start s) (start s0) = triple_eqb a a0
}.

Arguments co_forward {G} _ [s a] _ _.
Arguments co_backward {G} _ [s a] _ _.
Arguments co_continue {G} _ [s s0] _ _ _.
Arguments co_triples {G} _ [s s0 a a0] _ _ _ _.

(** The tangent vectors kept by [_setup_forward] and [_setup_backward]. *)
Definition forward_of (s : Segment) : option (TV S) :=
  if SegmentInPolygon.end_is_singular s then None
  else Some (invert (end_ s)).

Definition backward_of (s : Segment) : option (TV S) :=
  if SegmentInPolygon.start_is_singular s then None
  else Some (invert (start s)).

Lemma _next_step (self : t F) (a : Triple F) :
  _vector self = d -> _next S self a = step a.
Proof. intros E. unfold step. now apply _next_vector. Qed.

Lemma _previous_step (self : t F) (a : Triple F) :
  _vector self = d -> _previous S self a = step_back a.
Proof. intros E. unfold step_back. now apply _previous_vector. Qed.

Lemma _setup_forward_eq (l : StraightLineTrajectory.t S) :
  StraightLineTrajectory._setup_forward l =
  {| StraightLineTrajectory._segments := StraightLineTrajectory._segments l;
     StraightLineTrajectory._forward :=
       forward_of (last (StraightLineTrajectory._segments l));
     StraightLineTrajectory._backward := StraightLineTrajectory._backward l |}.
Proof.
  unfold StraightLineTrajectory._setup_forward, forward_of,
    StraightLineTrajectory.terminal_tangent_vector,
    SegmentInPolygon.end_is_singular, SegmentInPolygon.end_.
  now destruct (is_based_at_singularity _).
Qed.

Lemma _setup_backward_eq (l : StraightLineTrajectory.t S) :
  StraightLineTrajectory._setup_backward l =
  {| StraightLineTrajectory._segments := StraightLineTrajectory._segments l;
     StraightLineTrajectory._forward := StraightLineTrajectory._forward l;
     StraightLineTrajectory._backward :=
       backward_of (first (StraightLineTrajectory._segments l)) |}.
Proof.
  unfold StraightLineTrajectory._setup_backward, backward_of,
    StraightLineTrajectory.initial_tangent_vector,
    SegmentInPolygon.start_is_singular, SegmentInPolygon.start.
  now destruct (is_based_at_singularity _).
Qed.

Variable G : Segment -> Prop.
Hypothesis H_coherent : Coherent G.

(** The two trajectories describe the same path: the triples are those
    of the segments, in the same order, and the two ends of the first
    trajectory are those that its segments give. *)
Record related (l : StraightLineTrajectory.t S) (u : t F) : Prop := {
  rel_vector : _vector u = d;
  rel_points :
    Forall2 matches (to_list (StraightLineTrajectory.segments l))
      (to_list (_points u));
  rel_good : Forall G (to_list (StraightLineTrajectory.segments l));
  rel_forward :
    StraightLineTrajectory._forward l
    = forward_of (last (StraightLineTrajectory.segments l));
  rel_backward :
    StraightLineTrajectory._backward l
    = backward_of (first (StraightLineTrajectory.segments l))
}.

Arguments rel_vector {l u} _.
Arguments rel_points {l u} _.
Arguments rel_good {l u} _.
Arguments rel_forward {l u} _.
Arguments rel_backward {l u} _.

Section Related.
Variable l : StraightLineTrajectory.t S.
Variable u : t F.
Hypothesis H_rel : related l u.

Local Abbreviation sl := (last (StraightLineTrajectory.segments l)).
Local Abbreviation sf := (first (StraightLineTrajectory.segments l)).
Local Abbreviation al := (last (_points u)).
Local Abbreviation af := (first (_points u)).

Lemma related_last : G sl /\ matches sl al.
Proof.
  split.
  - apply Forall_deque_last, (rel_good H_rel).
  - apply (Forall2_deque_last matches), (rel_points H_rel).
Qed.

Lemma related_first : G sf /\ matches sf af.
Proof.
  split.
  - apply Forall_deque_first, (rel_good H_rel).
  - apply (Forall2_deque_first matches), (rel_points H_rel).
Qed.

Lemma related_forward_separatrix :
  StraightLineTrajectory.is_forward_separatrix l
  = is_zero (offset (step al)).
Proof.
  destruct related_last as [Hg Hm].
  destruct (co_forward H_coherent Hg Hm) as [-> _].
  unfold StraightLineTrajectory.is_forward_separatrix.
  rewrite (rel_forward H_rel). unfold forward_of.
  now destruct (SegmentInPolygon.end_is_singular sl).
Qed.

Lemma related_backward_separatrix :
  StraightLineTrajectory.is_backward_separatrix l = is_zero (offset af).
Proof.
  destruct related_first as [Hg Hm].
  destruct (co_backward H_coherent Hg Hm) as [-> _].
  unfold StraightLineTrajectory.is_backward_separatrix.
  rewrite (rel_backward H_rel). unfold backward_of.
  now destruct (SegmentInPolygon.start_is_singular sf).
Qed.

(** The first trajectory is closed when the image of the last triple
    is the first triple and does not have offset zero. *)
Lemma related_is_closed :
  StraightLineTrajectory.is_closed l
  = triple_eqb af (step al) && negb (is_zero (offset (step al))).
Proof.
  destruct related_last as [Hg Hm]. destruct related_first as [Hg0 Hm0].
  destruct (co_forward H_coherent Hg Hm) as [E Hf]. rewrite E.
  unfold StraightLineTrajectory.is_closed,
    StraightLineTrajectory.is_forward_separatrix.
  rewrite (rel_forward H_rel). unfold forward_of.
  destruct (SegmentInPolygon.end_is_singular sl) eqn:Es.
  - simpl. now rewrite andb_false_r.
  - cbn [negb andb]. rewrite andb_true_r.
    destruct (Hf eq_refl) as (Hg' & Hm' & _).
    etransitivity; [apply (co_continue H_coherent Hg Hg0 Es)|].
    rewrite (co_triples H_coherent Hg' Hg0 Hm' Hm0).
    apply triple_eqb_sym.
Qed.

(** The test of the first loop of [flow] is that of the forward loop
    of the second class. *)
Lemma related_forward_test :
  negb (StraightLineTrajectory.is_forward_separatrix l)
  && negb (StraightLineTrajectory.is_closed l)
  = negb (stops u (step al)).
Proof.
  rewrite related_forward_separatrix, related_is_closed.
  unfold stops. rewrite (triple_eqb_sym (step al) af).
  destruct (triple_eqb af (step al)), (is_zero (offset (step al)));
    reflexivity.
Qed.

(** The test of the second loop of [flow] is that of the backward loop
    of the second class. *)
Lemma related_backward_test :
  negb (StraightLineTrajectory.is_backward_separatrix l)
  && negb (StraightLineTrajectory.is_closed l)
  = negb (is_zero (offset af))
  && negb (triple_eqb (step_back af) al).
Proof.
  rewrite related_backward_separatrix, related_is_closed.
  destruct related_last as [Hg Hm]. destruct related_first as [Hg0 Hm0].
  destruct (co_forward H_coherent Hg Hm) as [Ef Hf].
  destruct (co_backward H_coherent Hg0 Hm0) as [Eb Hb].
  destruct (is_zero (offset af)) eqn:Ez; [reflexivity|].
  cbn [negb andb]. f_equal.
  symmetry in Eb. destruct (Hb Eb) as (_ & _ & Hinv).
  destruct (triple_eqb_spec (step_back af) al) as [Hc|Hc].
  - assert (E : step al = af) by (now rewrite <- Hc).
    rewrite E, Ez.
    destruct (triple_eqb_spec af af); [reflexivity|congruence].
  - destruct (is_zero (offset (step al))) eqn:Ezl.
    + now rewrite andb_false_r.
    + rewrite andb_true_r. symmetry in Ef.
      destruct (Hf Ef) as (_ & _ & Hinv').
      destruct (triple_eqb_spec af (step al)) as [Hc'|]; [|reflexivity].
      elim Hc. now rewrite Hc'.
Qed.
End Related.
Lemma push_forward_related (l : StraightLineTrajectory.t S) (u : t F) :
  related l u ->
  SegmentInPolygon.end_is_singular (last (StraightLineTrajectory.segments l))
  = false ->
  related (StraightLineTrajectory.push_forward l)
    {| _vector := _vector u;
       _points := append (_points u) (step (last (_points u))) |}.
Proof.
  intros H Es.
  destruct (related_last l u H) as [Hg Hm].
  destruct (co_forward H_coherent Hg Hm) as [_ Hf].
  destruct (Hf Es) as (Hg' & Hm' & _).
  unfold StraightLineTrajectory.push_forward.
  rewrite (rel_forward H). unfold forward_of at 1. rewrite Es.
  rewrite _setup_forward_eq.
  unfold StraightLineTrajectory.segments in *.
  cbn [StraightLineTrajectory._segments StraightLineTrajectory._forward
       StraightLineTrajectory._backward].
  constructor;
    cbn [StraightLineTrajectory.segments StraightLineTrajectory._segments
         StraightLineTrajectory._forward StraightLineTrajectory._backward
         _vector _points]; unfold StraightLineTrajectory.segments;
    cbn [StraightLineTrajectory._segments].
  - apply (rel_vector H).
  - rewrite !to_list_append. apply Forall2_app; [apply (rel_points H)|].
    constructor; [exact Hm' | constructor].
  - rewrite to_list_append. apply Forall_app. split; [apply (rel_good H)|].
    constructor; [exact Hg' | constructor].
  - now rewrite last_append.
  - rewrite first_append. apply (rel_backward H).
Qed.

Lemma push_backward_related (l : StraightLineTrajectory.t S) (u : t F) :
  related l u ->
  SegmentInPolygon.start_is_singular (first (StraightLineTrajectory.segments l))
  = false ->
  related (StraightLineTrajectory.push_backward l)
    {| _vector := _vector u;
       _points := appendleft (_points u) (step_back (first (_points u))) |}.
Proof.
  intros H Es.
  destruct (related_first l u H) as [Hg Hm].
  destruct (co_backward H_coherent Hg Hm) as [_ Hb].
  destruct (Hb Es) as (Hg' & Hm' & _).
  unfold StraightLineTrajectory.push_backward.
  rewrite (rel_backward H). unfold backward_of at 1. rewrite Es.
  rewrite _setup_backward_eq.
  unfold StraightLineTrajectory.segments in *.
  cbn [StraightLineTrajectory._segments StraightLineTrajectory._forward
       StraightLineTrajectory._backward].
  constructor;
    cbn [StraightLineTrajectory.segments StraightLineTrajectory._segments
         StraightLineTrajectory._forward StraightLineTrajectory._backward
         _vector _points]; unfold StraightLineTrajectory.segments;
    cbn [StraightLineTrajectory._segments].
  - apply (rel_vector H).
  - rewrite !to_list_appendleft. constructor; [exact Hm' | apply (rel_points H)].
  - rewrite to_list_appendleft. constructor; [exact Hg' | apply (rel_good H)].
  - rewrite last_appendleft. apply (rel_forward H).
  - reflexivity.
Qed.

Lemma fst_count {A : Type} (x : A * nat) :
  fst (let (r, c) := x in (r, Datatypes.S c)) = fst x.
Proof. now destruct x. Qed.

(** The forward loops of the two classes go together. *)
Lemma flow_forward_related (n : nat) (l : StraightLineTrajectory.t S) (u : t F) :
  related l u ->
  related (snd (StraightLineTrajectory.flow_forward n (Z.of_nat n) l))
    (fst (flow_forward S n (last (_points u)) u)).
Proof.
  revert l u. induction n as [|n IH]; intros l u H; [exact H|].
  cbn [StraightLineTrajectory.flow_forward flow_forward].
  replace (Z.of_nat (Datatypes.S n) >? 0)%Z with true
    by (symmetry; apply Z.gtb_lt; lia).
  cbn [andb]. rewrite (related_forward_test l u H).
  rewrite (_next_step u _ (rel_vector H)).
  fold (stops u (step (last (_points u)))).
  destruct (stops u (step (last (_points u)))) eqn:E; cbn [negb]; [exact H|].
  rewrite fst_count.
  replace (Z.of_nat (Datatypes.S n) - 1)%Z with (Z.of_nat n) by lia.
  assert (Es : SegmentInPolygon.end_is_singular
                 (last (StraightLineTrajectory.segments l)) = false).
  { destruct (related_last l u H) as [Hg Hm].
    destruct (co_forward H_coherent Hg Hm) as [<- _].
    unfold stops in E. now apply orb_false_iff in E. }
  specialize (IH _ _ (push_forward_related l u H Es)).
  cbn [_points] in IH. now rewrite last_append in IH.
Qed.

(** So do the backward loops. *)
Lemma flow_backward_related (n : nat) (l : StraightLineTrajectory.t S) (u : t F) :
  related l u ->
  related (snd (StraightLineTrajectory.flow_backward n (- Z.of_nat n) l))
    (fst (flow_backward S n (first (_points u)) u)).
Proof.
  revert l u. induction n as [|n IH]; intros l u H; [exact H|].
  cbn [StraightLineTrajectory.flow_backward flow_backward].
  replace (- Z.of_nat (Datatypes.S n) <? 0)%Z with true
    by (symmetry; apply Z.ltb_lt; lia).
  cbn [andb]. rewrite (related_backward_test l u H).
  destruct (is_zero (offset (first (_points u)))) eqn:Ez; cbn [negb andb];
    [exact H|].
  rewrite (_previous_step u _ (rel_vector H)).
  destruct (triple_eqb (step_back (first (_points u))) (last (_points u)));
    cbn [negb]; [exact H|].
  rewrite fst_count.
  replace (- Z.of_nat (Datatypes.S n) + 1)%Z with (- Z.of_nat n)%Z by lia.
  assert (Es : SegmentInPolygon.start_is_singular
                 (first (StraightLineTrajectory.segments l)) = false).
  { destruct (related_first l u H) as [Hg Hm].
    now destruct (co_backward H_coherent Hg Hm) as [<- _]. }
  apply (IH _ _ (push_backward_related l u H Es)).
Qed.

Lemma flow_forward_counter (fuel : nat) (steps : Z)
    (l : StraightLineTrajectory.t S) :
  (0 <= steps)%Z ->
  (0 <= fst (StraightLineTrajectory.flow_forward fuel steps l))%Z.
Proof.
  revert steps l. induction fuel as [|fuel IH]; intros steps l Hs; [exact Hs|].
  cbn [StraightLineTrajectory.flow_forward].
  destruct (steps >? 0)%Z eqn:E; cbn [andb]; [|exact Hs].
  destruct (negb (StraightLineTrajectory.is_forward_separatrix l)
            && negb (StraightLineTrajectory.is_closed l)); [|exact Hs].
  apply IH. lia.
Qed.

(** [flow] keeps the two trajectories together. *)
Lemma flow_related (l : StraightLineTrajectory.t S) (u : t F) (steps : Z) :
  related l u -> related (StraightLineTrajectory.flow l steps) (flow S u steps).
Proof.
  intros H. unfold StraightLineTrajectory.flow, flow, flow_count.
  destruct (steps >? 0)%Z eqn:Ep.
  - pose proof (flow_forward_related (Z.to_nat steps) l u H) as Hf.
    pose proof (flow_forward_counter (Z.to_nat steps) steps l) as Hc.
    rewrite Z2Nat.id in Hf by lia.
    destruct (StraightLineTrajectory.flow_forward (Z.to_nat steps) steps l)
      as [steps1 l1].
    cbn [fst snd] in *.
    rewrite flow_backward_stuck; [exact Hf|].
    replace (steps1 <? 0)%Z with false by lia. reflexivity.
  - replace (Z.to_nat steps) with O by lia.
    cbn [StraightLineTrajectory.flow_forward].
    destruct (steps <? 0)%Z eqn:En.
    + pose proof (flow_backward_related (Z.to_nat (- steps)) l u H) as Hb.
      rewrite Z2Nat.id in Hb by lia.
      now replace (- - steps)%Z with steps in Hb by lia.
    + replace (Z.to_nat (- steps)) with O by lia. exact H.
Qed.

Lemma flows_related (flows : list Z) (l : StraightLineTrajectory.t S) (u : t F) :
  related l u ->
  related (fold_left StraightLineTrajectory.flow flows l)
    (fold_left (flow S) flows u).
Proof.
  revert l u. induction flows as [|steps flows IH]; intros l u H; [exact H|].
  cbn [fold_left]. apply IH. now apply flow_related.
Qed.

(** The two constructors give related trajectories. *)
Lemma init_related (v : TV S) (u0 : t F) :
  vector v = d -> G (of_vector v) -> init S v = Ok u0 ->
  related (StraightLineTrajectory.init v) u0.
Proof.
  intros Ev Hg Hi. unfold init in Hi. rewrite Ev in Hi.
  destruct (crossing S d (SegmentInPolygon.start (of_vector v))) as [a|e] eqn:Ec;
    [|discriminate].
  cbn [bind] in Hi. injection Hi as <-.
  unfold StraightLineTrajectory.init.
  rewrite _setup_backward_eq, _setup_forward_eq.
  constructor;
    cbn [StraightLineTrajectory.segments StraightLineTrajectory._segments
         StraightLineTrajectory._forward StraightLineTrajectory._backward
         _vector _points]; unfold StraightLineTrajectory.segments;
    cbn [StraightLineTrajectory._segments].
  - reflexivity.
  - constructor; [exact Ec | constructor].
  - constructor; [exact Hg | constructor].
  - reflexivity.
  - reflexivity.
Qed.

(** What related trajectories report. *)
Lemma related_reports (l : StraightLineTrajectory.t S) (u : t F) :
  related l u ->
  StraightLineTrajectory.combinatorial_length l = combinatorial_length u /\
  StraightLineTrajectory.is_closed l
  = is_closed S u && negb (is_saddle_connection S u) /\
  StraightLineTrajectory.is_saddle_connection l = is_saddle_connection S u.
Proof.
  intros H.
  assert (Ef : is_forward_separatrix S u
               = is_zero (offset (step (last (_points u))))).
  { rewrite is_forward_separatrix_offset.
    now rewrite (_next_step u _ (rel_vector H)). }
  split; [|split].
  - unfold StraightLineTrajectory.combinatorial_length, combinatorial_length.
    apply len_length. apply (Forall2_length (rel_points H)).
  - rewrite (related_is_closed l u H).
    unfold is_closed, is_saddle_connection, is_backward_separatrix.
    rewrite Ef, (_next_step u _ (rel_vector H)).
    destruct (triple_eqb_spec (first (_points u)) (step (last (_points u))))
      as [E|E]; [|reflexivity].
    rewrite <- E. cbn [andb].
    now destruct (is_zero (offset (first (_points u)))).
  - unfold StraightLineTrajectory.is_saddle_connection, is_saddle_connection.
    rewrite (related_forward_separatrix l u H).
    rewrite (related_backward_separatrix l u H).
    now rewrite Ef.
Qed.


End Agreement.

(** ** Checking the coherence on finitely many segments *)

Section CoherenceCheck.
Context {F : ExactField} (S : FlatSurface F).
Import StraightLineTrajectoryTranslation.

Variable d : Vec2 F.
Variable L : list (SegmentInPolygon.t S).

Definition mem (s : SegmentInPolygon.t S) : bool :=
  existsb (SegmentInPolygon.eqb s) L.

Definition has_triple (s : SegmentInPolygon.t S) (a : Triple F) : bool :=
  match crossing S d (SegmentInPolygon.start s) with
  | Ok b => triple_eqb b a
  | Raise _ => false
  end.

Definition check_forward (s : SegmentInPolygon.t S) : bool :=
  match crossing S d (SegmentInPolygon.start s) with
  | Ok a =>
      Bool.eqb (is_zero (offset (step S d a)))
        (SegmentInPolygon.end_is_singular s)
      && (SegmentInPolygon.end_is_singular s
          || mem (following s)
             && has_triple (following s) (step S d a)
             && triple_eqb (step_back S d (step S d a)) a)
  | Raise _ => true
  end.

Definition check_backward (s : SegmentInPolygon.t S) : bool :=
  match crossing S d (SegmentInPolygon.start s) with
  | Ok a =>
      Bool.eqb (is_zero (offset a)) (SegmentInPolygon.start_is_singular s)
      && (SegmentInPolygon.start_is_singular s
          || mem (preceding s)
             && has_triple (preceding s) (step_back S d a)
             && triple_eqb (step S d (step_back S d a)) a)
  | Raise _ => true
  end.

Definition check_continue (s s0 : SegmentInPolygon.t S) : bool :=
  SegmentInPolygon.end_is_singular s
  || Bool.eqb
       (differs_by_scaling (invert (SegmentInPolygon.end_ s))
          (SegmentInPolygon.start s0))
       (differs_by_scaling (SegmentInPolygon.start (following s))
          (SegmentInPolygon.start s0)).

Definition check_triples (s s0 : SegmentInPolygon.t S) : bool :=
  match crossing S d (SegmentInPolygon.start s),
        crossing S d (SegmentInPolygon.start s0) with
  | Ok a, Ok a0 =>
      Bool.eqb
        (differs_by_scaling (SegmentInPolygon.start s)
           (SegmentInPolygon.start s0))
        (triple_eqb a a0)
  | _, _ => true
  end.

Definition check_coherent : bool :=
  forallb check_forward L
  && forallb check_backward L
  && forallb (fun s => forallb (check_continue s) L) L
  && forallb (fun s => forallb (check_triples s) L) L.

Lemma mem_In (s : SegmentInPolygon.t S) : mem s = true -> In s L.
Proof.
  unfold mem. intros H. apply existsb_exists in H.
  destruct H as (x & Hx & E).
  now destruct (segment_eqb_spec s x); [subst|discriminate].
Qed.

Lemma has_triple_matches (s : SegmentInPolygon.t S) (a : Triple F) :
  has_triple s a = true -> matches S d s a.
Proof.
  unfold has_triple, matches.
  destruct (crossing S d (SegmentInPolygon.start s)) as [b|]; [|discriminate].
  intros H. now destruct (triple_eqb_spec b a); [subst|discriminate].
Qed.

Lemma triple_eqb_eq (a b : Triple F) : triple_eqb a b = true -> a = b.
Proof. now destruct (triple_eqb_spec a b). Qed.

(** The check is sound: it establishes the coherence on the segments of
    the list. *)
Lemma check_coherent_sound :
  check_coherent = true -> Coherent S d (fun s => In s L).
Proof.
  unfold check_coherent. intros H.
  apply andb_true_iff in H. destruct H as [H Ht].
  apply andb_true_iff in H. destruct H as [H Hc].
  apply andb_true_iff in H. destruct H as [Hf Hb].
  rewrite forallb_forall in Hf, Hb, Hc, Ht.
  constructor.
  - intros s a Hin Hm. specialize (Hf s Hin).
    unfold check_forward in Hf. unfold matches in Hm. rewrite Hm in Hf.
    apply andb_true_iff in Hf. destruct Hf as [H1 H2].
    apply eqb_prop in H1. split; [exact H1|].
    intros Es. rewrite Es in H2. cbn [orb] in H2.
    apply andb_true_iff in H2. destruct H2 as [H2 H3].
    apply andb_true_iff in H2. destruct H2 as [H2 H4].
    repeat split.
    + now apply mem_In.
    + now apply has_triple_matches.
    + now apply triple_eqb_eq.
  - intros s a Hin Hm. specialize (Hb s Hin).
    unfold check_backward in Hb. unfold matches in Hm. rewrite Hm in Hb.
    apply andb_true_iff in Hb. destruct Hb as [H1 H2].
    apply eqb_prop in H1. split; [exact H1|].
    intros Es. rewrite Es in H2. cbn [orb] in H2.
    apply andb_true_iff in H2. destruct H2 as [H2 H3].
    apply andb_true_iff in H2. destruct H2 as [H2 H4].
    repeat split.
    + now apply mem_In.
    + now apply has_triple_matches.
    + now apply triple_eqb_eq.
  - intros s s0 Hin Hin0 Es.
    specialize (Hc s Hin). rewrite forallb_forall in Hc.
    specialize (Hc s0 Hin0). unfold check_continue in Hc.
    rewrite Es in Hc. cbn [orb] in Hc. now apply eqb_prop in Hc.
  - intros s s0 a a0 Hin Hin0 Hm Hm0.
    specialize (Ht s Hin). rewrite forallb_forall in Ht.
    specialize (Ht s0 Hin0). unfold check_triples in Ht.
    unfold matches in Hm, Hm0. rewrite Hm, Hm0 in Ht.
    now apply eqb_prop in Ht.
Qed.
End CoherenceCheck.

(** ** The colinearity helper *)

Section Colinearity.
Variable F : ExactField.

(** C3. On a non zero [u], [get_linearity_coeff(u, v)] returns [a] when
    [v = a*u] and raises [non colinear] when [v] is no multiple of [u].
    On [u = (0,0)] it raises: [zero vector] when [v[0]] is zero, and
    [non colinear] when [v[0]] is not. *)
Theorem get_linearity_coeff_spec (u v : Vec2 F) :
  (u <> vzero -> forall a, v = vscale a u -> get_linearity_coeff u v = Ok a) /\
  (u <> vzero -> (forall a, v <> vscale a u) ->
   get_linearity_coeff u v = Raise (ValueError "non colinear")) /\
  (u = vzero ->
   get_linearity_coeff u v =
   if truthy (fst v) then Raise (ValueError "non colinear")
   else Raise (ValueError "zero vector")).
Proof.
  split; [|split].
  - intros Hu a ->. now apply get_linearity_coeff_scale.
  - intros Hu Hv.
    destruct (get_linearity_coeff_nonzero F u v Hu) as [[a Ha]|H]; [|exact H].
    apply get_linearity_coeff_sound in Ha. now elim (Hv a).
  - intros ->. apply get_linearity_coeff_zero.
Qed.
End Colinearity.

(** ** On the square torus *)

Section TorusExamples.
Import SquareTorus.

(** Equality of rational vectors, by computation. *)
Lemma qc_vec_eq (u v : Vec2 QcField) : vec_eqb u v = true -> u = v.
Proof. now destruct (vec_eqb_spec QcField u v). Qed.

Lemma qc_vec_neq (u v : Vec2 QcField) : vec_eqb u v = false -> u <> v.
Proof. now destruct (vec_eqb_spec QcField u v). Qed.

(** C3, on the rationals: [(-2,-4) = -2 * (1,2)]; [(-1,1)] is no multiple
    of [(1,1)]; and the zero vector with [v = (0,1)]. *)
Lemma get_linearity_coeff_spec_witness :
  get_linearity_coeff (qc 1 1, qc 2 1) (qc (-2) 1, qc (-4) 1) = Ok (qc (-2) 1) /\
  get_linearity_coeff (qc 1 1, qc 1 1) (qc (-1) 1, qc 1 1)
  = Raise (ValueError "non colinear") /\
  get_linearity_coeff (qc 0 1, qc 0 1) (qc 0 1, qc 1 1)
  = Raise (ValueError "zero vector").
Proof.
  split; [|split].
  - apply (proj1 (get_linearity_coeff_spec QcField _ _)).
    + apply qc_vec_neq. reflexivity.
    + apply qc_vec_eq. reflexivity.
  - apply (proj1 (proj2 (get_linearity_coeff_spec QcField _ _))).
    + apply qc_vec_neq. reflexivity.
    + intros a H. cbv [vscale fst snd] in H. injection H as H1 H2.
      assert (E : qc (-1) 1 = qc 1 1) by congruence.
      apply (f_equal this) in E. discriminate E.
  - apply (proj2 (proj2 (get_linearity_coeff_spec QcField
                           (qc 0 1, qc 0 1) (qc 0 1, qc 1 1)))).
    apply qc_vec_eq. reflexivity.
Defined.

(** C3 as stated fails on [u = (0,0)], [v = (1,0)]: the error is
    [non colinear], not [zero vector]. *)
Lemma get_linearity_coeff_zero_counterexample :
  get_linearity_coeff (qc 0 1, qc 0 1) (qc 1 1, qc 0 1)
  = Raise (ValueError "non colinear") /\
  get_linearity_coeff (qc 0 1, qc 0 1) (qc 1 1, qc 0 1)
  <> Raise (ValueError "zero vector").
Proof. split; [reflexivity | discriminate]. Qed.

(** The docstrings, on the model of the torus. *)
Example init_56 :
  StraightLineTrajectoryTranslation.init surface v_56 = Ok triples_56.
Proof. apply init_returns. vm_compute. reflexivity. Qed.

Example init_12 :
  StraightLineTrajectoryTranslation.init surface v_12 = Ok triples_12.
Proof. apply init_returns. vm_compute. reflexivity. Qed.

Example init_12' :
  StraightLineTrajectoryTranslation.init surface w_12 = Ok triples_12'.
Proof. apply init_returns. vm_compute. reflexivity. Qed.

Example saddle_connection_12 :
  StraightLineTrajectoryTranslation.is_saddle_connection surface triples_12
  = false /\
  StraightLineTrajectoryTranslation.is_saddle_connection surface
    (StraightLineTrajectoryTranslation.flow surface triples_12 1) = true.
Proof. vm_compute. split; reflexivity. Qed.

Example next_13 :
  same
    (StraightLineTrajectoryTranslation.flow surface
       {| StraightLineTrajectoryTranslation._vector := (qc 5 1, qc 13 1);
          StraightLineTrajectoryTranslation._points :=
            singleton (0, 0, qc 1 3)%Z |} 2)
    {| StraightLineTrajectoryTranslation._vector := (qc 5 1, qc 13 1);
       StraightLineTrajectoryTranslation._points :=
         {| first := (0, 0, qc 1 3)%Z;
            rest := [(0, 0, qc 16 3); (0, 0, qc 31 3)]%Z |} |}
  = true.
Proof. vm_compute. reflexivity. Qed.

Example coding_56 :
  StraightLineTrajectory.coding (StraightLineTrajectory.init v_56)
  = Ok [(0, 0); (0, 1)]%Z.
Proof. vm_compute. reflexivity. Qed.

Example coding_saddle_56 :
  StraightLineTrajectory.coding saddle_56
  = Ok [(0, 2); (0, 1); (0, 2); (0, 1); (0, 2); (0, 1); (0, 2); (0, 1);
        (0, 2)]%Z.
Proof. vm_compute. reflexivity. Qed.

Example coding_closed_11 :
  StraightLineTrajectory.is_closed closed_11 = true /\
  StraightLineTrajectory.coding closed_11 = Ok [(0, 0); (0, 1)]%Z.
Proof. vm_compute. split; reflexivity. Qed.

(** From [triples_12], [flow(5)] appends one triple and stops on the
    second call of [_next], whose triple has offset zero. *)
Example flow_count_12 :
  snd (StraightLineTrajectoryTranslation.flow_count surface triples_12 5)
  = 2%nat /\
  StraightLineTrajectoryTranslation.combinatorial_length
    (StraightLineTrajectoryTranslation.flow surface triples_12 5) = 2%Z.
Proof. vm_compute. split; reflexivity. Qed.

(** C2, on the torus: [seg_12'] starts inside a side and ends at a
    vertex, and [previous()] raises on it. *)
Lemma previous_raises_on_singular_end_witness :
  SegmentInPolygon.start_is_singular seg_12' = false /\
  SegmentInPolygon.end_is_singular seg_12' = true /\
  SegmentInPolygon.previous seg_12' =
  Raise (ValueError "Cannot continue from singularity").
Proof.
  split; [vm_compute; reflexivity|]. split; [vm_compute; reflexivity|].
  apply previous_raises_on_singular_end; vm_compute; reflexivity.
Defined.

(** C5, on the torus: the segment after [seg_12] ends at the vertex
    [(1, 1)], and [seg_12.next().previous()] raises. *)
Lemma next_previous_raises_witness :
  SegmentInPolygon.next seg_12 = Ok (following seg_12) /\
  SegmentInPolygon.end_is_singular (following seg_12) = true /\
  (do n <- SegmentInPolygon.next seg_12 ;; SegmentInPolygon.previous n) =
  Raise (ValueError "Cannot continue from singularity").
Proof.
  assert (H : SegmentInPolygon.next seg_12 = Ok (following seg_12))
    by (apply next_following; vm_compute; reflexivity).
  split; [exact H|]. split; [vm_compute; reflexivity|].
  apply (next_previous_raises seg_12 (following seg_12));
    [exact H | vm_compute; reflexivity].
Defined.

(** C6, on the torus: the closed trajectory of [v_11]. *)
Lemma flow_closed_length_witness :
  StraightLineTrajectory.is_closed closed_11 = true /\
  StraightLineTrajectory.segments (StraightLineTrajectory.flow closed_11 3)
  = StraightLineTrajectory.segments closed_11 /\
  StraightLineTrajectory.combinatorial_length
    (StraightLineTrajectory.flow closed_11 3)
  = StraightLineTrajectory.combinatorial_length closed_11.
Proof.
  split; [vm_compute; reflexivity|].
  apply flow_closed_length; [vm_compute; reflexivity | reflexivity].
Defined.

(** C7, on the torus: the saddle connection of [v_56] as segments, and
    that of [v_12] as triples, after one step. *)
Lemma saddle_connection_flow_noop_witness :
  let u := StraightLineTrajectoryTranslation.flow surface triples_12 1 in
  StraightLineTrajectory.is_saddle_connection saddle_56 = true /\
  StraightLineTrajectoryTranslation.is_saddle_connection surface u = true /\
  StraightLineTrajectory.flow saddle_56 (-4) = saddle_56 /\
  StraightLineTrajectoryTranslation.flow surface u (-4) = u.
Proof.
  intros u.
  assert (H1 : StraightLineTrajectory.is_saddle_connection saddle_56 = true)
    by (vm_compute; reflexivity).
  assert (H2 : StraightLineTrajectoryTranslation.is_saddle_connection
                 surface u = true) by (vm_compute; reflexivity).
  split; [exact H1|]. split; [exact H2|].
  destruct (saddle_connection_flow_noop surface saddle_56 u (-4)) as [Ha Hb].
  split; [exact (Ha H1) | exact (Hb H2)].
Defined.

(** C8, on the torus: three steps from the triple of [v_56]. *)
Lemma flow_forward_stops_early_witness :
  (3 > 0)%Z /\
  exists added,
    to_list (StraightLineTrajectoryTranslation._points
               (StraightLineTrajectoryTranslation.flow surface triples_56 3))
    = to_list (StraightLineTrajectoryTranslation._points triples_56) ++ added /\
    chain (StraightLineTrajectoryTranslation._next surface triples_56)
      (last (StraightLineTrajectoryTranslation._points triples_56)) added /\
    Forall (fun b =>
              StraightLineTrajectoryTranslation.triple_eqb b
                (first (StraightLineTrajectoryTranslation._points triples_56))
              = false /\
              is_zero (StraightLineTrajectoryTranslation.offset b) = false)
      added /\
    let calls :=
      snd (StraightLineTrajectoryTranslation.flow_count surface triples_56 3) in
    (Z.of_nat calls <= 3)%Z /\
    ((Z.of_nat calls = 3%Z /\ List.length added = calls) \/
     (calls = Datatypes.S (List.length added) /\
      let b :=
        StraightLineTrajectoryTranslation._next surface triples_56
          (List.last added
             (last (StraightLineTrajectoryTranslation._points triples_56))) in
      StraightLineTrajectoryTranslation.triple_eqb b
        (first (StraightLineTrajectoryTranslation._points triples_56))
      || is_zero (StraightLineTrajectoryTranslation.offset b) = true)).
Proof.
  split; [reflexivity|].
  apply (flow_forward_stops_early surface triples_56 3). reflexivity.
Defined.

(** C4, on the torus: the trajectory of [v_12] after one step starts at
    a vertex and ends at a vertex. *)
Lemma separatrix_tests_witness :
  let u := StraightLineTrajectoryTranslation.flow surface triples_12 1 in
  StraightLineTrajectoryTranslation.is_backward_separatrix u = true /\
  StraightLineTrajectoryTranslation.is_forward_separatrix surface u = true /\
  StraightLineTrajectoryTranslation.flow surface u (-3) = u /\
  StraightLineTrajectoryTranslation.flow surface u 3 = u.
Proof.
  intros u.
  assert (H1 : StraightLineTrajectoryTranslation.is_backward_separatrix u
               = true) by (vm_compute; reflexivity).
  assert (H2 : StraightLineTrajectoryTranslation.is_forward_separatrix
                 surface u = true) by (vm_compute; reflexivity).
  split; [exact H1|]. split; [exact H2|].
  destruct (separatrix_tests surface u) as (_ & _ & Hb & Hf).
  split; [apply (Hb H1); reflexivity | apply (Hf H2); reflexivity].
Defined.

(** C4 as stated fails on the trajectory of [w_12]: its first triple has
    offset 1, so it is no backward separatrix, and one more step backward
    lands on offset zero. *)
Lemma is_backward_separatrix_counterexample :
  StraightLineTrajectoryTranslation.init surface w_12 = Ok triples_12' /\
  StraightLineTrajectoryTranslation.is_backward_separatrix triples_12' = false /\
  is_zero
    (StraightLineTrajectoryTranslation.offset
       (StraightLineTrajectoryTranslation._previous surface triples_12'
          (first (StraightLineTrajectoryTranslation._points triples_12'))))
  = true /\
  ~ (StraightLineTrajectoryTranslation.is_backward_separatrix triples_12' = true
     <->
     is_zero
       (StraightLineTrajectoryTranslation.offset
          (StraightLineTrajectoryTranslation._previous surface triples_12'
             (first (StraightLineTrajectoryTranslation._points triples_12'))))
     = true).
Proof.
  assert (H1 : StraightLineTrajectoryTranslation.is_backward_separatrix
                 triples_12' = false) by (vm_compute; reflexivity).
  assert (H2 : is_zero
                 (StraightLineTrajectoryTranslation.offset
                    (StraightLineTrajectoryTranslation._previous surface
                       triples_12'
                       (first (StraightLineTrajectoryTranslation._points
                                 triples_12')))) = true)
    by (vm_compute; reflexivity).
  split; [exact init_12'|]. split; [exact H1|]. split; [exact H2|].
  intros [_ H]. rewrite (H H2) in H1. discriminate H1.
Qed.


(** The triples of the closed trajectory of [v_11]: its segment starts at
    [(2/35, 0)]. *)
Definition triples_11 : StraightLineTrajectoryTranslation.t QcField :=
  {| StraightLineTrajectoryTranslation._vector := (qc 1 1, qc 1 1);
     StraightLineTrajectoryTranslation._points := singleton (0, 0, qc 2 35)%Z |}.

Example init_11 :
  StraightLineTrajectoryTranslation.init surface v_11 = Ok triples_11.
Proof. apply init_returns. vm_compute. reflexivity. Qed.

End TorusExamples.

(** * Further properties of the module *)

(** ** The colinearity helper, as an equivalence *)

Section ColinearityMore.
Variable F : ExactField.

(** X1. [get_linearity_coeff(u, v)] returns [a] exactly when [u] is not
    the zero vector and [v = a*u]: what it returns is the coefficient,
    and it is the only one. *)
Theorem get_linearity_coeff_iff (u v : Vec2 F) (a : F) :
  get_linearity_coeff u v = Ok a <-> u <> vzero /\ v = vscale a u.
Proof.
  split.
  - intros H. split.
    + intros ->. rewrite get_linearity_coeff_zero in H.
      destruct (truthy (fst v)); discriminate H.
    + now apply get_linearity_coeff_sound.
  - intros [Hu ->]. now apply get_linearity_coeff_scale.
Qed.
End ColinearityMore.

(** ** Indexing a deque *)

Section GetItem.
Context {A : Type}.

Lemma len_pos (d : deque A) : (0 < len d)%Z.
Proof. unfold len, to_list. cbn [List.length]. lia. Qed.

Lemma nth_error_last (l : list A) (a x : A) :
  nth_error (a :: l) (List.length l) = Some (List.last (a :: l) x).
Proof.
  revert a. induction l as [|b l IH]; intros a; [reflexivity|].
  cbn [List.length nth_error]. rewrite IH. reflexivity.
Qed.

Lemma getitem_first (d : deque A) : getitem d 0 = Ok (first d).
Proof. reflexivity. Qed.

Lemma getitem_last (d : deque A) : getitem d (-1) = Ok (last d).
Proof.
  unfold getitem. cbn [Z.ltb Z.compare].
  pose proof (len_pos d) as Hp.
  replace (-1 + len d <? 0)%Z with false by lia.
  replace (Z.to_nat (-1 + len d)) with (List.length (rest d))
    by (unfold len, to_list; cbn [List.length]; lia).
  unfold to_list. rewrite (nth_error_last (rest d) (first d) (first d)).
  now rewrite last_cons.
Qed.

Lemma getitem_in_range (d : deque A) (i : Z) :
  (- len d <= i < len d)%Z ->
  exists a, getitem d i = Ok a /\ In a (to_list d).
Proof.
  intros Hi. unfold getitem.
  set (j := if (i <? 0)%Z then (i + len d)%Z else i).
  assert (Hj : (0 <= j < len d)%Z)
    by (unfold j; destruct (i <? 0)%Z eqn:E; lia).
  replace (j <? 0)%Z with false by lia.
  destruct (nth_error (to_list d) (Z.to_nat j)) as [a|] eqn:E.
  - exists a. split; [reflexivity|]. eapply nth_error_In, E.
  - apply nth_error_None in E. unfold len in Hj. lia.
Qed.

Lemma getitem_out_of_range (d : deque A) (i : Z) :
  ~ (- len d <= i < len d)%Z ->
  getitem d i = Raise (IndexError "deque index out of range").
Proof.
  intros Hi. unfold getitem.
  set (j := if (i <? 0)%Z then (i + len d)%Z else i).
  destruct (j <? 0)%Z eqn:Ej; [reflexivity|].
  assert (Hj : (len d <= j)%Z)
    by (unfold j in *; destruct (i <? 0)%Z eqn:E; lia).
  destruct (nth_error (to_list d) (Z.to_nat j)) as [a|] eqn:E;
    [|reflexivity].
  assert (Hn : nth_error (to_list d) (Z.to_nat j) <> None) by congruence.
  apply nth_error_Some in Hn. unfold len in Hj. lia.
Qed.
End GetItem.

Section SegmentIndex.
Context {F : ExactField} {S : FlatSurface F}.
Import StraightLineTrajectory.

(** X2. [segment(i)] of a [StraightLineTrajectory] of [n] segments:
    [segment(0)] is the first segment and [segment(-1)] the last; an
    index from [-n] to [n - 1] gives one of the stored segments, and any
    other index raises [IndexError]. *)
Theorem segment_index (self : t S) (i : Z) :
  segment self 0 = Ok (first (segments self)) /\
  segment self (-1) = Ok (last (segments self)) /\
  ((- combinatorial_length self <= i < combinatorial_length self)%Z ->
   exists s, segment self i = Ok s /\ In s (to_list (segments self))) /\
  (~ (- combinatorial_length self <= i < combinatorial_length self)%Z ->
   segment self i = Raise (IndexError "deque index out of range")).
Proof.
  unfold segment, combinatorial_length.
  split; [apply getitem_first|]. split; [apply getitem_last|].
  split; [apply getitem_in_range | apply getitem_out_of_range].
Qed.
End SegmentIndex.

(** ** How [StraightLineTrajectory.flow] grows a trajectory *)

(** [adjacent R l]: every element of [l] is in relation [R] with the one
    that comes after it. *)
Fixpoint adjacent {A : Type} (R : A -> A -> Prop) (l : list A) : Prop :=
  match l with
  | a :: (b :: _) as l' => R a b /\ adjacent R l'
  | _ => True
  end.

Lemma adjacent_snoc {A : Type} (R : A -> A -> Prop) (a : A) (l : list A)
    (b : A) :
  adjacent R (a :: l) -> R (List.last l a) b -> adjacent R ((a :: l) ++ [b]).
Proof.
  revert a. induction l as [|c l IH]; intros a H Hb.
  - cbn. split; [exact Hb | exact I].
  - destruct H as [Hac H]. cbn [app]. split; [exact Hac|].
    apply (IH c H). now rewrite <- (last_cons l c a).
Qed.

Section FlowMore.
Context {F : ExactField} {S : FlatSurface F}.
Import StraightLineTrajectory.

(** The two ends kept by the trajectory are those of its segments. *)
Definition consistent (l : t S) : Prop :=
  _forward l = forward_of S (last (segments l)) /\
  _backward l = backward_of S (first (segments l)).

(** The test of the loops, without the counter. *)
Definition may_go_forward (l : t S) : bool :=
  negb (is_forward_separatrix l) && negb (is_closed l).

Definition may_go_backward (l : t S) : bool :=
  negb (is_backward_separatrix l) && negb (is_closed l).

Lemma init_consistent (v : TV S) : consistent (init v).
Proof.
  unfold init. rewrite _setup_backward_eq, _setup_forward_eq.
  split; reflexivity.
Qed.

Lemma push_forward_spec (l : t S) (f : TV S) :
  _forward l = Some f ->
  push_forward l =
  {| _segments := append (_segments l) (SegmentInPolygon.of_vector f);
     _forward := forward_of S (SegmentInPolygon.of_vector f);
     _backward := _backward l |}.
Proof.
  intros E. unfold push_forward. rewrite E, _setup_forward_eq.
  cbn [_segments _backward]. now rewrite last_append.
Qed.

Lemma push_backward_spec (l : t S) (b : TV S) :
  _backward l = Some b ->
  push_backward l =
  {| _segments :=
       appendleft (_segments l)
         (SegmentInPolygon.invert (SegmentInPolygon.of_vector b));
     _forward := _forward l;
     _backward :=
       backward_of S (SegmentInPolygon.invert (SegmentInPolygon.of_vector b)) |}.
Proof.
  intros E. unfold push_backward. rewrite E, _setup_backward_eq.
  reflexivity.
Qed.

Lemma may_go_forward_Some (l : t S) :
  may_go_forward l = true -> exists f, _forward l = Some f.
Proof.
  unfold may_go_forward, is_forward_separatrix.
  destruct (_forward l) as [f|]; [eauto | discriminate].
Qed.

Lemma may_go_backward_Some (l : t S) :
  may_go_backward l = true -> exists b, _backward l = Some b.
Proof.
  unfold may_go_backward, is_backward_separatrix.
  destruct (_backward l) as [b|]; [eauto | discriminate].
Qed.

Lemma consistent_forward_Some (l : t S) (f : TV S) :
  consistent l -> _forward l = Some f ->
  SegmentInPolygon.end_is_singular (last (segments l)) = false /\
  SegmentInPolygon.of_vector f = following (last (segments l)).
Proof.
  intros [Hf _] E. rewrite Hf in E. unfold forward_of in E.
  destruct (SegmentInPolygon.end_is_singular (last (segments l)));
    [discriminate|].
  injection E as <-. split; reflexivity.
Qed.

Lemma consistent_backward_Some (l : t S) (b : TV S) :
  consistent l -> _backward l = Some b ->
  SegmentInPolygon.invert (SegmentInPolygon.of_vector b)
  = preceding (first (segments l)).
Proof.
  intros [_ Hb] E. rewrite Hb in E. unfold backward_of in E.
  destruct (SegmentInPolygon.start_is_singular (first (segments l)));
    [discriminate|].
  now injection E as <-.
Qed.

(** What the trajectory keeps while it grows: its two ends are those of
    its segments, and its consecutive segments are in relation [R]. *)
Section Growth.
Variable R : SegmentInPolygon.t S -> SegmentInPolygon.t S -> Prop.

Definition grown (l : t S) : Prop :=
  consistent l /\ adjacent R (to_list (segments l)).

Hypothesis R_forward : forall s,
  SegmentInPolygon.end_is_singular s = false -> R s (following s).

Lemma push_forward_grown (l : t S) :
  grown l -> may_go_forward l = true -> grown (push_forward l).
Proof.
  intros [Hc Ha] Hgo. destruct (may_go_forward_Some l Hgo) as [f Ef].
  destruct (consistent_forward_Some l f Hc Ef) as [Es Efol].
  rewrite (push_forward_spec l f Ef). split.
  - split; cbn [_forward _backward segments _segments].
    + now rewrite last_append.
    + rewrite first_append. apply Hc.
  - cbn [segments _segments]. rewrite to_list_append.
    apply adjacent_snoc; [exact Ha|].
    rewrite Efol. unfold segments in *.
    change (List.last (rest (_segments l)) (first (_segments l)))
      with (last (_segments l)).
    now apply R_forward.
Qed.

Lemma flow_forward_grown (fuel : nat) (steps : Z) (l : t S) :
  grown l -> grown (snd (flow_forward fuel steps l)).
Proof.
  revert steps l. induction fuel as [|fuel IH]; intros steps l H; [exact H|].
  cbn [flow_forward].
  destruct (steps >? 0)%Z; cbn [andb]; [|exact H].
  fold (may_go_forward l).
  destruct (may_go_forward l) eqn:E; [|exact H].
  apply IH. now apply push_forward_grown.
Qed.

(** [flow(steps)] with [steps >= 0] is the first loop alone. *)
Lemma flow_nonneg (l : t S) (steps : Z) :
  (0 <= steps)%Z ->
  flow l steps = snd (flow_forward (Z.to_nat steps) steps l).
Proof.
  intros Hs. unfold flow.
  pose proof (flow_forward_counter S (Z.to_nat steps) steps l Hs) as Hc.
  destruct (flow_forward (Z.to_nat steps) steps l) as [steps1 l1].
  cbn [fst snd] in *. rewrite flow_backward_stuck; [reflexivity|].
  replace (steps1 <? 0)%Z with false by lia. reflexivity.
Qed.

(** [flow(steps)] with [steps <= 0] is the second loop alone. *)
Lemma flow_nonpos (l : t S) (steps : Z) :
  (steps <= 0)%Z ->
  flow l steps = snd (flow_backward (Z.to_nat (- steps)) steps l).
Proof.
  intros Hs. unfold flow. replace (Z.to_nat steps) with O by lia.
  reflexivity.
Qed.

Lemma flows_forward_grown (flows : list Z) (l : t S) :
  Forall (fun n => (0 <= n)%Z) flows ->
  grown l -> grown (fold_left flow flows l).
Proof.
  revert l. induction flows as [|n flows IH]; intros l Hn H; [exact H|].
  inversion Hn as [|x xs Hx Hxs]; subst.
  cbn [fold_left]. apply IH; [exact Hxs|].
  rewrite (flow_nonneg l n Hx). now apply flow_forward_grown.
Qed.

Hypothesis R_backward : forall s,
  SegmentInPolygon.start_is_singular s = false -> R (preceding s) s.

Lemma push_backward_grown (l : t S) :
  grown l -> may_go_backward l = true -> grown (push_backward l).
Proof.
  intros [Hc Ha] Hgo. destruct (may_go_backward_Some l Hgo) as [b Eb].
  pose proof (consistent_backward_Some l b Hc Eb) as Epre.
  assert (Es : SegmentInPolygon.start_is_singular (first (segments l)) = false).
  { destruct Hc as [_ Hb]. rewrite Hb in Eb. unfold backward_of in Eb.
    now destruct (SegmentInPolygon.start_is_singular (first (segments l))). }
  rewrite (push_backward_spec l b Eb). split.
  - split; cbn [_forward _backward segments _segments].
    + rewrite last_appendleft. apply Hc.
    + reflexivity.
  - cbn [segments _segments]. rewrite to_list_appendleft.
    unfold to_list in *. cbn [adjacent]. split; [|exact Ha].
    rewrite Epre. now apply R_backward.
Qed.

Lemma flow_backward_grown (fuel : nat) (steps : Z) (l : t S) :
  grown l -> grown (snd (flow_backward fuel steps l)).
Proof.
  revert steps l. induction fuel as [|fuel IH]; intros steps l H; [exact H|].
  cbn [flow_backward].
  destruct (steps <? 0)%Z; cbn [andb]; [|exact H].
  fold (may_go_backward l).
  destruct (may_go_backward l) eqn:E; [|exact H].
  apply IH. now apply push_backward_grown.
Qed.

Lemma flow_grown (l : t S) (steps : Z) : grown l -> grown (flow l steps).
Proof.
  intros H. destruct (Z.le_gt_cases 0 steps) as [Hs|Hs].
  - rewrite (flow_nonneg l steps Hs). now apply flow_forward_grown.
  - rewrite (flow_nonpos l steps) by lia. now apply flow_backward_grown.
Qed.

Lemma flows_grown (flows : list Z) (l : t S) :
  grown l -> grown (fold_left flow flows l).
Proof.
  revert l. induction flows as [|n flows IH]; intros l H; [exact H|].
  cbn [fold_left]. apply IH. now apply flow_grown.
Qed.
End Growth.

Lemma init_grown (R : SegmentInPolygon.t S -> SegmentInPolygon.t S -> Prop)
    (v : TV S) :
  grown R (init v).
Proof.
  split; [apply init_consistent|].
  unfold init. rewrite _setup_backward_eq, _setup_forward_eq. exact I.
Qed.

(** X3. In a trajectory built by the constructor and any calls of
    [flow], [is_forward_separatrix()] holds exactly when the last segment
    ends at a singularity, and [is_backward_separatrix()] exactly when
    the first segment starts at one; so [is_saddle_connection()] holds
    exactly when both do. *)
Theorem separatrix_is_singular_end (v : TV S) (flows : list Z) :
  let l := fold_left flow flows (init v) in
  is_forward_separatrix l
  = SegmentInPolygon.end_is_singular (last (segments l)) /\
  is_backward_separatrix l
  = SegmentInPolygon.start_is_singular (first (segments l)) /\
  is_saddle_connection l
  = SegmentInPolygon.end_is_singular (last (segments l))
    && SegmentInPolygon.start_is_singular (first (segments l)).
Proof.
  intros l.
  assert (H : grown (fun _ _ => True) l).
  { apply flows_grown; [trivial | trivial | apply init_grown]. }
  destruct H as [[Hf Hb] _].
  assert (E1 : is_forward_separatrix l
               = SegmentInPolygon.end_is_singular (last (segments l))).
  { unfold is_forward_separatrix. rewrite Hf. unfold forward_of.
    now destruct (SegmentInPolygon.end_is_singular (last (segments l))). }
  assert (E2 : is_backward_separatrix l
               = SegmentInPolygon.start_is_singular (first (segments l))).
  { unfold is_backward_separatrix. rewrite Hb. unfold backward_of.
    now destruct (SegmentInPolygon.start_is_singular (first (segments l))). }
  split; [exact E1|]. split; [exact E2|].
  unfold is_saddle_connection. now rewrite E1, E2.
Qed.

(** X4. In a trajectory built by the constructor and any calls of
    [flow], each segment is tied to the one after it: the later one is
    [next()] of the earlier one, or the earlier one was built backward
    from the start of the later one.  When all the calls have
    [steps >= 0], every segment is [next()] of the one before it. *)
Theorem consecutive_segments (v : TV S) (flows : list Z) :
  let l := fold_left flow flows (init v) in
  adjacent (fun s s' => SegmentInPolygon.next s = Ok s' \/ s = preceding s')
    (to_list (segments l)) /\
  (Forall (fun n => (0 <= n)%Z) flows ->
   adjacent (fun s s' => SegmentInPolygon.next s = Ok s')
     (to_list (segments l))).
Proof.
  intros l. split.
  - apply (flows_grown _); [| |apply init_grown].
    + intros s Hs. left. now apply next_following.
    + intros s Hs. now right.
  - intros Hn. apply (flows_forward_grown _); [|exact Hn|apply init_grown].
    intros s Hs. now apply next_following.
Qed.
End FlowMore.

Section FlowFrame.
Context {F : ExactField} {S : FlatSurface F}.
Import StraightLineTrajectory.

Lemma flow_backward_counter (fuel : nat) (steps : Z) (l : t S) :
  (steps <= 0)%Z -> (fst (flow_backward fuel steps l) <= 0)%Z.
Proof.
  revert steps l. induction fuel as [|fuel IH]; intros steps l Hs; [exact Hs|].
  cbn [flow_backward].
  destruct (steps <? 0)%Z eqn:E; cbn [andb]; [|exact Hs].
  destruct (negb (is_backward_separatrix l) && negb (is_closed l));
    [|exact Hs].
  apply IH. lia.
Qed.

(** The first loop appends one segment for each unit it takes off
    [steps], and leaves the backward end alone. *)
Lemma flow_forward_appends (fuel : nat) (steps : Z) (l : t S) :
  exists added,
    to_list (segments (snd (flow_forward fuel steps l)))
    = to_list (segments l) ++ added /\
    Z.of_nat (List.length added) = (steps - fst (flow_forward fuel steps l))%Z /\
    _backward (snd (flow_forward fuel steps l)) = _backward l.
Proof.
  revert steps l. induction fuel as [|fuel IH]; intros steps l.
  - exists []. cbn. rewrite app_nil_r. repeat split. lia.
  - cbn [flow_forward].
    destruct (steps >? 0)%Z; cbn [andb].
    + fold (may_go_forward l). destruct (may_go_forward l) eqn:E.
      * destruct (may_go_forward_Some l E) as [f Ef].
        destruct (IH (steps - 1)%Z (push_forward l)) as (added & H1 & H2 & H3).
        assert (Hs : to_list (segments (push_forward l))
                     = to_list (segments l) ++ [SegmentInPolygon.of_vector f])
          by (now rewrite (push_forward_spec l f Ef)).
        assert (Hb : _backward (push_forward l) = _backward l)
          by (now rewrite (push_forward_spec l f Ef)).
        rewrite Hs, <- app_assoc in H1. rewrite Hb in H3.
        exists (SegmentInPolygon.of_vector f :: added).
        split; [exact H1|]. split; [|exact H3].
        cbn [List.length]. lia.
      * exists []. cbn. rewrite app_nil_r. repeat split. lia.
    + exists []. cbn. rewrite app_nil_r. repeat split. lia.
Qed.

(** The second loop prepends one segment for each unit it adds to
    [steps], and leaves the forward end alone. *)
Lemma flow_backward_prepends (fuel : nat) (steps : Z) (l : t S) :
  exists added,
    to_list (segments (snd (flow_backward fuel steps l)))
    = added ++ to_list (segments l) /\
    Z.of_nat (List.length added) = (fst (flow_backward fuel steps l) - steps)%Z /\
    _forward (snd (flow_backward fuel steps l)) = _forward l.
Proof.
  revert steps l. induction fuel as [|fuel IH]; intros steps l.
  - exists []. cbn. repeat split. lia.
  - cbn [flow_backward].
    destruct (steps <? 0)%Z; cbn [andb].
    + fold (may_go_backward l). destruct (may_go_backward l) eqn:E.
      * destruct (may_go_backward_Some l E) as [b Eb].
        destruct (IH (steps + 1)%Z (push_backward l)) as (added & H1 & H2 & H3).
        assert (Hs : to_list (segments (push_backward l))
                     = SegmentInPolygon.invert (SegmentInPolygon.of_vector b)
                       :: to_list (segments l))
          by (now rewrite (push_backward_spec l b Eb)).
        assert (Hf : _forward (push_backward l) = _forward l)
          by (now rewrite (push_backward_spec l b Eb)).
        rewrite Hs in H1. rewrite Hf in H3.
        exists (added ++
                [SegmentInPolygon.invert (SegmentInPolygon.of_vector b)]).
        split; [now rewrite <- app_assoc|]. split; [|exact H3].
        rewrite length_app. cbn [List.length]. lia.
      * exists []. cbn. repeat split. lia.
    + exists []. cbn. repeat split. lia.
Qed.

(** X5. [flow(n)] with [n > 0] only appends: the segments it finds stay
    in place, at most [n] segments come after them, and the backward end
    is not touched.  When fewer than [n] segments are appended, the
    trajectory it leaves is a forward separatrix or is closed. *)
Theorem flow_appends (l : t S) (n : Z) :
  (n > 0)%Z ->
  exists added,
    to_list (segments (flow l n)) = to_list (segments l) ++ added /\
    (Z.of_nat (List.length added) <= n)%Z /\
    _backward (flow l n) = _backward l /\
    ((Z.of_nat (List.length added) < n)%Z ->
     is_forward_separatrix (flow l n) || is_closed (flow l n) = true).
Proof.
  intros Hn. rewrite (flow_nonneg l n) by lia.
  destruct (flow_forward_appends (Z.to_nat n) n l) as (added & H1 & H2 & H3).
  pose proof (flow_forward_counter S (Z.to_nat n) n l) as Hc.
  pose proof (flow_forward_exit (Z.to_nat n) n l) as He.
  destruct (flow_forward (Z.to_nat n) n l) as [steps1 l1].
  cbn [fst snd] in *.
  exists added. split; [exact H1|]. split; [lia|]. split; [exact H3|].
  intros Hlt. specialize (He ltac:(lia)).
  replace (steps1 >? 0)%Z with true in He by lia. cbn [andb] in He.
  destruct (is_forward_separatrix l1), (is_closed l1);
    try reflexivity; discriminate He.
Qed.

(** X6. [flow(n)] with [n < 0] only prepends: the segments it finds stay
    in place, at most [-n] segments come before them, and the forward end
    is not touched.  When fewer than [-n] segments are prepended, the
    trajectory it leaves is a backward separatrix or is closed. *)
Theorem flow_prepends (l : t S) (n : Z) :
  (n < 0)%Z ->
  exists added,
    to_list (segments (flow l n)) = added ++ to_list (segments l) /\
    (Z.of_nat (List.length added) <= - n)%Z /\
    _forward (flow l n) = _forward l /\
    ((Z.of_nat (List.length added) < - n)%Z ->
     is_backward_separatrix (flow l n) || is_closed (flow l n) = true).
Proof.
  intros Hn. rewrite (flow_nonpos l n) by lia.
  destruct (flow_backward_prepends (Z.to_nat (- n)) n l)
    as (added & H1 & H2 & H3).
  pose proof (flow_backward_counter (Z.to_nat (- n)) n l) as Hc.
  pose proof (flow_backward_exit (Z.to_nat (- n)) n l) as He.
  destruct (flow_backward (Z.to_nat (- n)) n l) as [steps1 l1].
  cbn [fst snd] in *.
  exists added. split; [exact H1|]. split; [lia|]. split; [exact H3|].
  intros Hlt. specialize (He ltac:(lia)).
  replace (steps1 <? 0)%Z with true in He by lia. cbn [andb] in He.
  destruct (is_backward_separatrix l1), (is_closed l1);
    try reflexivity; discriminate He.
Qed.

(** The loops as iterations. *)
Fixpoint forward_n (n : nat) (l : t S) : t S :=
  match n with
  | O => l
  | Datatypes.S n' =>
      if may_go_forward l then forward_n n' (push_forward l) else l
  end.

Fixpoint backward_n (n : nat) (l : t S) : t S :=
  match n with
  | O => l
  | Datatypes.S n' =>
      if may_go_backward l then backward_n n' (push_backward l) else l
  end.

Lemma flow_forward_n (n : nat) (l : t S) :
  snd (flow_forward n (Z.of_nat n) l) = forward_n n l.
Proof.
  revert l. induction n as [|n IH]; intros l; [reflexivity|].
  cbn [flow_forward forward_n].
  replace (Z.of_nat (Datatypes.S n) >? 0)%Z with true
    by (symmetry; apply Z.gtb_lt; lia).
  cbn [andb]. fold (may_go_forward l).
  destruct (may_go_forward l); [|reflexivity].
  replace (Z.of_nat (Datatypes.S n) - 1)%Z with (Z.of_nat n) by lia.
  apply IH.
Qed.

Lemma flow_backward_n (n : nat) (l : t S) :
  snd (flow_backward n (- Z.of_nat n) l) = backward_n n l.
Proof.
  revert l. induction n as [|n IH]; intros l; [reflexivity|].
  cbn [flow_backward backward_n].
  replace (- Z.of_nat (Datatypes.S n) <? 0)%Z with true
    by (symmetry; apply Z.ltb_lt; lia).
  cbn [andb]. fold (may_go_backward l).
  destruct (may_go_backward l); [|reflexivity].
  replace (- Z.of_nat (Datatypes.S n) + 1)%Z with (- Z.of_nat n)%Z by lia.
  apply IH.
Qed.

Lemma forward_n_stuck (n : nat) (l : t S) :
  may_go_forward l = false -> forward_n n l = l.
Proof. intros E. destruct n; [reflexivity|]. cbn. now rewrite E. Qed.

Lemma backward_n_stuck (n : nat) (l : t S) :
  may_go_backward l = false -> backward_n n l = l.
Proof. intros E. destruct n; [reflexivity|]. cbn. now rewrite E. Qed.

Lemma forward_n_add (n m : nat) (l : t S) :
  forward_n (n + m) l = forward_n m (forward_n n l).
Proof.
  revert l. induction n as [|n IH]; intros l; [reflexivity|].
  cbn [Nat.add forward_n].
  destruct (may_go_forward l) eqn:E; [apply IH|].
  now rewrite forward_n_stuck.
Qed.

Lemma backward_n_add (n m : nat) (l : t S) :
  backward_n (n + m) l = backward_n m (backward_n n l).
Proof.
  revert l. induction n as [|n IH]; intros l; [reflexivity|].
  cbn [Nat.add backward_n].
  destruct (may_go_backward l) eqn:E; [apply IH|].
  now rewrite backward_n_stuck.
Qed.

Lemma flow_forward_n_eq (l : t S) (a : Z) :
  (0 <= a)%Z -> flow l a = forward_n (Z.to_nat a) l.
Proof.
  intros Ha. rewrite (flow_nonneg l a Ha).
  rewrite <- (Z2Nat.id a Ha) at 2. apply flow_forward_n.
Qed.

Lemma flow_backward_n_eq (l : t S) (a : Z) :
  (a <= 0)%Z -> flow l a = backward_n (Z.to_nat (- a)) l.
Proof.
  intros Ha. rewrite (flow_nonpos l a Ha).
  replace a with (- Z.of_nat (Z.to_nat (- a)))%Z at 2 by lia.
  apply flow_backward_n.
Qed.

(** X7. Calls of [flow] in one direction add up: [flow(a)] then
    [flow(b)] leaves the trajectory that [flow(a + b)] leaves, when [a]
    and [b] are both positive or zero, and when they are both negative or
    zero.  [flow(0)] changes nothing. *)
Theorem flow_flow (l : t S) (a b : Z) :
  flow l 0 = l /\
  ((0 <= a)%Z -> (0 <= b)%Z -> flow (flow l a) b = flow l (a + b)) /\
  ((a <= 0)%Z -> (b <= 0)%Z -> flow (flow l a) b = flow l (a + b)).
Proof.
  split; [reflexivity|]. split; intros Ha Hb.
  - rewrite !flow_forward_n_eq by lia.
    rewrite Z2Nat.inj_add by lia. symmetry. apply forward_n_add.
  - rewrite !flow_backward_n_eq by lia.
    replace (Z.to_nat (- (a + b))) with (Z.to_nat (- a) + Z.to_nat (- b))%nat
      by lia.
    symmetry. apply backward_n_add.
Qed.
End FlowFrame.

(** ** How [StraightLineTrajectoryTranslation.flow] grows a trajectory *)

Section ListEnds.
Context {A : Type}.

Lemma last_app_default (l added : list A) (d : A) :
  List.last (l ++ added) d = List.last added (List.last l d).
Proof.
  revert d. induction l as [|a l IH]; intros d; [reflexivity|].
  cbn [app]. rewrite !last_cons. apply IH.
Qed.

Lemma rev_app_head (added : list A) (x : A) (l : list A) :
  exists l', rev added ++ x :: l = List.last added x :: l'.
Proof.
  revert x l. induction added as [|b added IH]; intros x l.
  - exists l. reflexivity.
  - cbn [rev]. rewrite <- app_assoc. cbn [app]. rewrite last_cons.
    apply IH.
Qed.

Lemma deque_ends_app (d e : deque A) (added : list A) :
  to_list e = to_list d ++ added ->
  first e = first d /\ last e = List.last added (last d).
Proof.
  intros H. split.
  - unfold to_list in H. cbn [app] in H. now injection H.
  - rewrite <- (last_to_list e (first d)), H, last_app_default.
    now rewrite last_to_list.
Qed.

Lemma deque_ends_rev_app (d e : deque A) (added : list A) :
  to_list e = rev added ++ to_list d ->
  first e = List.last added (first d) /\ last e = last d.
Proof.
  intros H. split.
  - destruct (rev_app_head added (first d) (rest d)) as [l' E].
    unfold to_list in H. rewrite E in H. now injection H.
  - rewrite <- (last_to_list e (first d)), H, last_app_default.
    now rewrite !last_to_list.
Qed.
End ListEnds.

Section TranslationMore.
Context {F : ExactField} (S : FlatSurface F).
Import StraightLineTrajectoryTranslation.

Lemma flow_forward_vector (n : nat) (a : Triple F) (self : t F) :
  _vector (fst (flow_forward S n a self)) = _vector self.
Proof.
  revert a self. induction n as [|n IH]; intros a self; [reflexivity|].
  cbn [flow_forward].
  destruct (triple_eqb (_next S self a) (first (_points self))
            || is_zero (offset (_next S self a))); [reflexivity|].
  rewrite fst_count. now rewrite IH.
Qed.

Lemma flow_backward_vector (n : nat) (a : Triple F) (self : t F) :
  _vector (fst (flow_backward S n a self)) = _vector self.
Proof.
  revert a self. induction n as [|n IH]; intros a self; [reflexivity|].
  cbn [flow_backward].
  destruct (is_zero (offset a)); [reflexivity|].
  destruct (triple_eqb (_previous S self a) (last (_points self)));
    [reflexivity|].
  rewrite fst_count. now rewrite IH.
Qed.

(** X8. [flow(steps)] with [steps > 0] keeps the direction and the first
    triple, and never removes a triple.  It appends [steps] triples, or
    it appends fewer and leaves a trajectory that [is_closed()] or that
    [is_forward_separatrix()]. *)
Theorem flow_forward_outcome (self : t F) (steps : Z) :
  (steps > 0)%Z ->
  let u := flow S self steps in
  _vector u = _vector self /\
  first (_points u) = first (_points self) /\
  (combinatorial_length self <= combinatorial_length u
   <= combinatorial_length self + steps)%Z /\
  ((combinatorial_length u < combinatorial_length self + steps)%Z ->
   is_closed S u || is_forward_separatrix S u = true).
Proof.
  intros Hs u.
  assert (Eu : u = fst (flow_forward S (Z.to_nat steps)
                          (last (_points self)) self)).
  { unfold u, flow, flow_count. now replace (steps >? 0)%Z with true by lia. }
  destruct (flow_forward_spec S (Z.to_nat steps) (last (_points self)) self)
    as (added & Hl & Hc & Hf & Hle & Hn).
  rewrite <- Eu in Hl.
  assert (Ev : _vector u = _vector self)
    by (rewrite Eu; apply flow_forward_vector).
  destruct (deque_ends_app _ _ _ Hl) as [E1 E2].
  assert (El : combinatorial_length u
               = (combinatorial_length self + Z.of_nat (List.length added))%Z).
  { unfold combinatorial_length, len. rewrite Hl, length_app. lia. }
  split; [exact Ev|]. split; [exact E1|]. split.
  - destruct Hn as [[Hn1 Hn2]|[Hn1 Hn2]]; lia.
  - intros Hlt. destruct Hn as [[Hn1 Hn2]|[Hn1 Hn2]]; [lia|].
    unfold stops in Hn2.
    rewrite is_forward_separatrix_offset. unfold is_closed.
    rewrite (_next_vector S u self _ Ev), E1, E2.
    now rewrite (triple_eqb_sym (first (_points self))).
Qed.

(** The backward loop prepends the successive preimages of [a]; it stops
    on a triple of offset zero, without a call of [_previous], or on a
    preimage that is the last stored triple, which it does not
    prepend. *)
Lemma flow_backward_spec (n : nat) (a : Triple F) (self : t F) :
  exists added,
    to_list (_points (fst (flow_backward S n a self)))
    = rev added ++ to_list (_points self) /\
    chain (_previous S self) a added /\
    Forall (fun b => triple_eqb b (last (_points self)) = false) added /\
    Forall (fun b => is_zero (offset b) = false) (removelast (a :: added)) /\
    let c := snd (flow_backward S n a self) in
    (c <= n)%nat /\
    ((c = List.length added /\
      (List.length added = n \/ is_zero (offset (List.last added a)) = true)) \/
     (c = Datatypes.S (List.length added) /\
      triple_eqb (_previous S self (List.last added a)) (last (_points self))
      = true)).
Proof.
  revert a self. induction n as [|n IH]; intros a self.
  - exists []. cbn [flow_backward fst snd chain rev app List.length removelast].
    split; [reflexivity|]. split; [exact I|]. split; [constructor|].
    split; [constructor|]. split; [lia|]. left. split; [reflexivity|].
    now left.
  - cbn [flow_backward].
    destruct (is_zero (offset a)) eqn:Ez.
    + exists [].
      cbn [fst snd chain rev app List.length removelast List.last].
      split; [reflexivity|]. split; [exact I|]. split; [constructor|].
      split; [constructor|]. split; [lia|]. left. split; [reflexivity|].
      now right.
    + destruct (triple_eqb (_previous S self a) (last (_points self))) eqn:Ec.
      * exists [].
        cbn [fst snd chain rev app List.length removelast List.last].
        split; [reflexivity|]. split; [exact I|]. split; [constructor|].
        split; [constructor|]. split; [lia|]. right. now split.
      * set (self' := {| _vector := _vector self;
                         _points := appendleft (_points self)
                                      (_previous S self a) |}).
        destruct (IH (_previous S self a) self')
          as (added & Hl & Hc & Hf & Hz & Hn).
        destruct (flow_backward S n (_previous S self a) self') as [r c].
        cbn [fst snd] in *.
        assert (Ev : forall x, _previous S self' x = _previous S self x)
          by (intros x; now apply _previous_vector).
        assert (El : last (_points self') = last (_points self))
          by apply last_appendleft.
        exists (_previous S self a :: added).
        split; [|split; [|split; [|split; [|split]]]].
        -- rewrite Hl. unfold self'. cbn [_points rev].
           rewrite to_list_appendleft, <- app_assoc. reflexivity.
        -- split; [reflexivity|]. now apply (chain_ext (_previous S self')).
        -- constructor; [exact Ec|]. now rewrite <- El.
        -- change (removelast (a :: _previous S self a :: added))
             with (a :: removelast (_previous S self a :: added)).
           constructor; [exact Ez | exact Hz].
        -- lia.
        -- rewrite last_cons. cbn [List.length].
           destruct Hn as [_ [[-> Hn]|[-> Hn]]].
           ++ left. split; [reflexivity|]. destruct Hn as [->|Hn];
                [now left | now right].
           ++ right. split; [reflexivity|]. now rewrite <- Ev, <- El.
Qed.

(** X9. For [steps < 0], [flow(steps)] calls [_previous] at most
    [-steps] times and only from triples of non zero offset.  It
    prepends the successive preimages of the first triple, none of them
    equal to the last stored triple, and leaves the direction and the
    last triple as they are.  When it prepends fewer than [-steps]
    triples, the trajectory it leaves is a backward separatrix or the
    preimage of its first triple is its last triple. *)
Theorem flow_backward_outcome (self : t F) (steps : Z) :
  (steps < 0)%Z ->
  let u := flow S self steps in
  exists added,
    to_list (_points u) = rev added ++ to_list (_points self) /\
    chain (_previous S self) (first (_points self)) added /\
    Forall (fun b => triple_eqb b (last (_points self)) = false) added /\
    Forall (fun b => is_zero (offset b) = false)
      (removelast (first (_points self) :: added)) /\
    _vector u = _vector self /\
    last (_points u) = last (_points self) /\
    (Z.of_nat (snd (flow_count S self steps)) <= - steps)%Z /\
    ((Z.of_nat (List.length added) < - steps)%Z ->
     is_backward_separatrix u = true \/
     triple_eqb (_previous S u (first (_points u))) (last (_points u)) = true).
Proof.
  intros Hs u.
  assert (Eu : flow_count S self steps
               = flow_backward S (Z.to_nat (- steps)) (first (_points self)) self).
  { unfold flow_count. replace (steps >? 0)%Z with false by lia.
    now replace (steps <? 0)%Z with true by lia. }
  destruct (flow_backward_spec (Z.to_nat (- steps)) (first (_points self)) self)
    as (added & Hl & Hc & Hf & Hz & Hle & Hn).
  unfold u, flow. rewrite Eu.
  set (r := flow_backward S (Z.to_nat (- steps)) (first (_points self)) self)
    in *.
  assert (Ev : _vector (fst r) = _vector self) by apply flow_backward_vector.
  destruct (deque_ends_rev_app _ _ _ Hl) as [E1 E2].
  exists added. split; [exact Hl|]. split; [exact Hc|]. split; [exact Hf|].
  split; [exact Hz|]. split; [exact Ev|]. split; [exact E2|]. split; [lia|].
  intros Hlt. unfold is_backward_separatrix.
  rewrite (_previous_vector S (fst r) self _ Ev), E1, E2.
  destruct Hn as [[_ [Hn|Hn]]|[_ Hn]]; [lia | now left | now right].
Qed.

(** X10. Once [is_closed()] holds, [flow(steps)] with [steps > 0] leaves
    the trajectory as it is; so does [flow(steps)] with [steps < 0] when
    [_previous] takes the image by [_next] of the last triple back to
    it. *)
Theorem flow_closed (self : t F) (steps : Z) :
  is_closed S self = true ->
  ((steps > 0)%Z -> flow S self steps = self) /\
  ((steps < 0)%Z ->
   _previous S self (_next S self (last (_points self)))
   = last (_points self) ->
   flow S self steps = self).
Proof.
  unfold is_closed. intros Hc.
  destruct (triple_eqb_spec (first (_points self))
              (_next S self (last (_points self)))) as [E|]; [|discriminate].
  split.
  - intros Hs. unfold flow, flow_count.
    replace (steps >? 0)%Z with true by lia.
    destruct (Z.to_nat steps) as [|n]; [reflexivity|].
    cbn [flow_forward]. rewrite <- E.
    destruct (triple_eqb_spec (first (_points self)) (first (_points self)));
      [reflexivity | congruence].
  - intros Hs Hr. unfold flow, flow_count.
    replace (steps >? 0)%Z with false by lia.
    replace (steps <? 0)%Z with true by lia.
    destruct (Z.to_nat (- steps)) as [|n]; [reflexivity|].
    cbn [flow_backward].
    destruct (is_zero (offset (first (_points self)))); [reflexivity|].
    rewrite E, Hr.
    destruct (triple_eqb_spec (last (_points self)) (last (_points self)));
      [reflexivity | congruence].
Qed.

Lemma flow_forward_add (n m : nat) (self : t F) :
  let u := fst (flow_forward S n (last (_points self)) self) in
  fst (flow_forward S (n + m) (last (_points self)) self)
  = fst (flow_forward S m (last (_points u)) u).
Proof.
  revert self. induction n as [|n IH]; intros self; [reflexivity|].
  cbn [Nat.add flow_forward].
  destruct (triple_eqb (_next S self (last (_points self)))
              (first (_points self))
            || is_zero (offset (_next S self (last (_points self))))) eqn:E.
  - cbn [fst]. destruct m as [|m]; [reflexivity|].
    cbn [flow_forward]. now rewrite E.
  - rewrite !fst_count.
    pose proof (IH {| _vector := _vector self;
                      _points := append (_points self)
                                   (_next S self (last (_points self))) |})
      as IH'.
    cbn zeta in IH'. cbn [_points] in IH'.
    rewrite last_append in IH'. exact IH'.
Qed.

Lemma flow_backward_add (n m : nat) (self : t F) :
  let u := fst (flow_backward S n (first (_points self)) self) in
  fst (flow_backward S (n + m) (first (_points self)) self)
  = fst (flow_backward S m (first (_points u)) u).
Proof.
  revert self. induction n as [|n IH]; intros self; [reflexivity|].
  cbn [Nat.add flow_backward].
  destruct (is_zero (offset (first (_points self)))) eqn:Ez.
  - cbn [fst]. destruct m as [|m]; [reflexivity|].
    cbn [flow_backward]. now rewrite Ez.
  - destruct (triple_eqb (_previous S self (first (_points self)))
                (last (_points self))) eqn:E.
    + cbn [fst]. destruct m as [|m]; [reflexivity|].
      cbn [flow_backward]. now rewrite Ez, E.
    + rewrite !fst_count.
      pose proof (IH {| _vector := _vector self;
                        _points := appendleft (_points self)
                                     (_previous S self (first (_points self))) |})
        as IH'.
      cbn zeta in IH'. exact IH'.
Qed.

(** X11. Calls of [flow] in one direction add up for this class too:
    [flow(a)] then [flow(b)] leaves the triples that [flow(a + b)]
    leaves, when [a] and [b] are both positive or zero, and when they are
    both negative or zero.  [flow(0)] changes nothing. *)
Theorem flow_flow_translation (self : t F) (a b : Z) :
  flow S self 0 = self /\
  ((0 <= a)%Z -> (0 <= b)%Z ->
   flow S (flow S self a) b = flow S self (a + b)) /\
  ((a <= 0)%Z -> (b <= 0)%Z ->
   flow S (flow S self a) b = flow S self (a + b)).
Proof.
  split; [reflexivity|]. split; intros Ha Hb.
  - destruct (Z.eq_dec a 0) as [->|Na]; [reflexivity|].
    destruct (Z.eq_dec b 0) as [->|Nb]; [now rewrite Z.add_0_r|].
    unfold flow, flow_count.
    replace (a >? 0)%Z with true by lia.
    replace (b >? 0)%Z with true by lia.
    replace (a + b >? 0)%Z with true by lia.
    rewrite Z2Nat.inj_add by lia. symmetry. apply flow_forward_add.
  - destruct (Z.eq_dec a 0) as [->|Na]; [reflexivity|].
    destruct (Z.eq_dec b 0) as [->|Nb]; [now rewrite Z.add_0_r|].
    unfold flow, flow_count.
    replace (a >? 0)%Z with false by lia.
    replace (b >? 0)%Z with false by lia.
    replace (a + b >? 0)%Z with false by lia.
    replace (a <? 0)%Z with true by lia.
    replace (b <? 0)%Z with true by lia.
    replace (a + b <? 0)%Z with true by lia.
    replace (Z.to_nat (- (a + b))) with (Z.to_nat (- a) + Z.to_nat (- b))%nat
      by lia.
    symmetry. apply flow_backward_add.
Qed.

(** X12. [_previous] undoes [_next] on a triple [(p, e, x)] as soon as
    the gluing of the side where the flow leaves [p] is an involution and
    [backward_image] undoes [forward_image] there. *)
Theorem previous_next (self : t F) (p e : Z) (x : F) (e1 : Z) (x1 : F)
    (q f : Z) :
  forward_image (flow_map S p (_vector self)) e x = (e1, x1) ->
  opposite_edge S p e1 = (q, f) ->
  opposite_edge S q f = (p, e1) ->
  backward_image (flow_map S p (_vector self)) e1 x1 = (e, x) ->
  _next S self (p, e, x) = (q, f, x1) /\
  _previous S self (_next S self (p, e, x)) = (p, e, x).
Proof.
  intros H1 H2 H3 H4.
  assert (E : _next S self (p, e, x) = (q, f, x1))
    by (unfold _next, _get_iet; now rewrite H1, H2).
  split; [exact E|]. rewrite E.
  unfold _previous, _get_iet. now rewrite H3, H4.
Qed.

(** X13. The constructor returns a trajectory exactly when the start of
    the first segment is based on a side, or at a vertex, [i] of its
    polygon [p], that side is not reduced to a point, and the start lies
    on its line: [start.point() - vertex(i) = c * (vertex(i+1) -
    vertex(i))].  The trajectory then holds the direction of the tangent
    vector and the one triple [(p, i, c * length_bot(i))]. *)
Theorem init_outcome (v : TV S) (u : t F) :
  let start := SegmentInPolygon.start (SegmentInPolygon.of_vector v) in
  let p := polygon_label start in
  init S v = Ok u <->
  exists i c,
    (position start = EDGE_INTERIOR i \/ position start = VERTEX i) /\
    vsub (vertex S p (i + 1)) (vertex S p i) <> vzero /\
    vsub (point start) (vertex S p i)
    = vscale c (vsub (vertex S p (i + 1)) (vertex S p i)) /\
    u = {| _vector := vector v;
           _points :=
             singleton
               (p, i, (c * length_bot (flow_map S p (vector v)) i)%K) |}.
Proof.
  intros start p. unfold init. fold start. unfold crossing. fold p. split.
  - intros H.
    assert (Hi : forall i,
               (position start = EDGE_INTERIOR i \/ position start = VERTEX i) ->
               (do x <- get_linearity_coeff
                          (vsub (vertex S p (i + 1)) (vertex S p i))
                          (vsub (point start) (vertex S p i)) ;;
                Ok {| _vector := vector v;
                      _points :=
                        singleton
                          (p, i,
                           (x * length_bot (flow_map S p (vector v)) i)%K) |})
               = Ok u ->
               exists i c,
                 (position start = EDGE_INTERIOR i \/
                  position start = VERTEX i) /\
                 vsub (vertex S p (i + 1)) (vertex S p i) <> vzero /\
                 vsub (point start) (vertex S p i)
                 = vscale c (vsub (vertex S p (i + 1)) (vertex S p i)) /\
                 u = {| _vector := vector v;
                        _points :=
                          singleton
                            (p, i,
                             (c * length_bot (flow_map S p (vector v)) i)%K) |}).
    { intros i Hpos Hx.
      destruct (get_linearity_coeff _ _) as [c|] eqn:E; [|discriminate].
      cbn [bind] in Hx. injection Hx as <-.
      exists i, c. split; [exact Hpos|]. split; [|split; [|reflexivity]].
      - intros Hz. rewrite Hz, get_linearity_coeff_zero in E.
        destruct (truthy _); discriminate E.
      - now apply get_linearity_coeff_sound. }
    destruct (position start) as [|i|i] eqn:Ep;
      cbn [bind get_edge get_vertex] in H; [discriminate| |].
    + apply (Hi i); [now left|].
      destruct (get_linearity_coeff _ _); [exact H | discriminate].
    + apply (Hi i); [now right|].
      destruct (get_linearity_coeff _ _); [exact H | discriminate].
  - intros (i & c & Hpos & Hnz & Heq & ->).
    destruct Hpos as [-> | ->]; cbn [bind get_edge get_vertex];
      now rewrite Heq, (get_linearity_coeff_scale F _ c Hnz).
Qed.
End TranslationMore.

(** ** [coding] *)

(** The pairs of a coding read through an alphabet: a pair that the
    alphabet does not hold is dropped. *)
Definition translate {L : Type} (letter : Z * Z -> option L)
    (pairs : list (Z * Z)) : list L :=
  flat_map (fun pe => match letter pe with Some lab => [lab] | None => [] end)
    pairs.

Lemma translate_app {L : Type} (letter : Z * Z -> option L)
    (a b : list (Z * Z)) :
  translate letter (a ++ b) = translate letter a ++ translate letter b.
Proof. apply flat_map_app. Qed.

Lemma translate_concat {L : Type} (letter : Z * Z -> option L)
    (xs : list (list (Z * Z))) :
  translate letter (List.concat xs)
  = List.concat (List.map (translate letter) xs).
Proof.
  induction xs as [|x xs IH]; [reflexivity|].
  cbn [List.concat List.map]. now rewrite translate_app, IH.
Qed.

Lemma removelast_length {A : Type} (a : A) (l : list A) :
  List.length (removelast (a :: l)) = List.length l.
Proof.
  revert a. induction l as [|b l IH]; intros a; [reflexivity|].
  change (removelast (a :: b :: l)) with (a :: removelast (b :: l)).
  cbn [List.length]. now rewrite IH.
Qed.

Section Coding.
Context {F : ExactField} {S : FlatSurface F}.
Import StraightLineTrajectory.

Definition no_edge : exn :=
  ValueError "Asked for edge when not in edge interior.".

Lemma code_of_translate {L : Type} (letter : Z * Z -> option L)
    (p : Z) (pos : Position) :
  code_of letter p pos =
  do pairs <- code_of (fun pe => Some pe) p pos ;; Ok (translate letter pairs).
Proof.
  unfold code_of. destruct (get_edge pos) as [e|]; [|reflexivity].
  cbn [bind translate flat_map]. now rewrite app_nil_r.
Qed.

Lemma mapM_translate {L : Type} (letter : Z * Z -> option L)
    (l : list (SegmentInPolygon.t S)) :
  mapM (fun s => code_of letter (SegmentInPolygon.polygon_label s)
                   (position (SegmentInPolygon.end_ s))) l =
  do xs <- mapM (fun s => code_of (fun pe => Some pe)
                            (SegmentInPolygon.polygon_label s)
                            (position (SegmentInPolygon.end_ s))) l ;;
  Ok (List.map (translate letter) xs).
Proof.
  induction l as [|s l IH]; [reflexivity|].
  cbn [mapM]. rewrite code_of_translate, IH. clear IH.
  destruct (code_of (fun pe => Some pe) (SegmentInPolygon.polygon_label s)
              (position (SegmentInPolygon.end_ s))) as [x|]; [|reflexivity].
  cbn [bind].
  destruct (mapM (fun s => code_of (fun pe => Some pe)
                             (SegmentInPolygon.polygon_label s)
                             (position (SegmentInPolygon.end_ s))) l)
    as [xs|]; reflexivity.
Qed.

(** X14. [coding(alphabet)] is [coding()] read through the alphabet: it
    fails when [coding()] fails, and otherwise gives the letters of the
    pairs of [coding()], in the same order, without the pairs that the
    alphabet does not hold. *)
Theorem coding_with_alphabet {L : Type} (letter : Z * Z -> option L)
    (self : t S) :
  coding_with letter self =
  do pairs <- coding self ;; Ok (translate letter pairs).
Proof.
  unfold coding, coding_with.
  rewrite mapM_translate, !(code_of_translate letter).
  destruct (is_in_edge_interior
              (position (SegmentInPolygon.start (first (_segments self)))));
    [destruct (code_of (fun pe => Some pe) _ _) as [a0|]; [|reflexivity]|];
    cbn [bind];
    (destruct (mapM _ (removelast (to_list (_segments self)))) as [xs|];
       [|reflexivity]);
    cbn [bind];
    (destruct (is_in_edge_interior _ && negb _);
       [destruct (code_of (fun pe => Some pe) _ _) as [a2|]; [|reflexivity]|]);
    cbn [bind]; rewrite !translate_app, translate_concat; reflexivity.
Qed.

Lemma code_of_edge (p : Z) (pos : Position) :
  is_in_edge_interior pos = true ->
  exists e, code_of (fun pe => Some pe) p pos = Ok [(p, e)].
Proof.
  destruct pos as [|e|v]; try discriminate. intros _. now exists e.
Qed.

Lemma code_of_no_edge (p : Z) (pos : Position) :
  is_in_edge_interior pos = false ->
  code_of (fun pe => Some pe) p pos = Raise no_edge.
Proof. destruct pos as [|e|v]; try discriminate; reflexivity. Qed.

Lemma mapM_code_of_edges (l : list (SegmentInPolygon.t S)) :
  Forall (fun s => is_in_edge_interior (position (SegmentInPolygon.end_ s))
                   = true) l ->
  exists xs,
    mapM (fun s => code_of (fun pe => Some pe)
                     (SegmentInPolygon.polygon_label s)
                     (position (SegmentInPolygon.end_ s))) l = Ok xs /\
    List.length (List.concat xs) = List.length l.
Proof.
  induction 1 as [|s l Hs Hl (xs & E & Hn)]; [now exists []|].
  destruct (code_of_edge (SegmentInPolygon.polygon_label s) _ Hs) as [e He].
  exists ([(SegmentInPolygon.polygon_label s, e)] :: xs).
  cbn [mapM]. rewrite He, E. split; [reflexivity|].
  cbn [List.concat app List.length]. now rewrite Hn.
Qed.

Lemma mapM_code_of_vertex (l : list (SegmentInPolygon.t S)) :
  Exists (fun s => is_in_edge_interior (position (SegmentInPolygon.end_ s))
                   = false) l ->
  mapM (fun s => code_of (fun pe => Some pe)
                   (SegmentInPolygon.polygon_label s)
                   (position (SegmentInPolygon.end_ s))) l = Raise no_edge.
Proof.
  induction l as [|s l IH]; intros H; [inversion H|].
  cbn [mapM].
  destruct (is_in_edge_interior (position (SegmentInPolygon.end_ s))) eqn:E.
  - destruct (code_of_edge (SegmentInPolygon.polygon_label s) _ E) as [e He].
    rewrite He. cbn [bind].
    inversion H as [x xs Hx|x xs Hx]; subst; [congruence|].
    now rewrite (IH Hx).
  - now rewrite (code_of_no_edge _ _ E).
Qed.

(** The first and the last block of [coding] give at most one pair. *)
Lemma guarded_code_of (b : bool) (p : Z) (pos : Position) :
  (b = true -> is_in_edge_interior pos = true) ->
  exists a,
    (if b then code_of (fun pe => Some pe) p pos else Ok []) = Ok a /\
    (List.length a <= 1)%nat.
Proof.
  intros H. destruct b.
  - destruct (code_of_edge p pos (H eq_refl)) as [e He].
    exists [(p, e)]. split; [exact He | cbn; lia].
  - exists []. split; [reflexivity | cbn; lia].
Qed.

(** X15. [coding()] of a trajectory of [n] segments returns when every
    segment but the last ends in the interior of a side, and then gives
    between [n - 1] and [n + 1] pairs; when one of these segments ends
    elsewhere, it raises the error of [get_edge]. *)
Theorem coding_outcome (self : t S) :
  let inner := removelast (to_list (segments self)) in
  (Forall (fun s => is_in_edge_interior (position (SegmentInPolygon.end_ s))
                    = true) inner ->
   exists pairs,
     coding self = Ok pairs /\
     (combinatorial_length self - 1 <= Z.of_nat (List.length pairs)
      <= combinatorial_length self + 1)%Z) /\
  (Exists (fun s => is_in_edge_interior (position (SegmentInPolygon.end_ s))
                    = false) inner ->
   coding self = Raise no_edge).
Proof.
  intros inner.
  assert (Hlen : combinatorial_length self
                 = (Z.of_nat (List.length inner) + 1)%Z).
  { unfold combinatorial_length, len, inner, segments, to_list.
    rewrite removelast_length. cbn [List.length]. lia. }
  unfold coding, coding_with.
  destruct (guarded_code_of
              (is_in_edge_interior
                 (position (SegmentInPolygon.start (first (_segments self)))))
              (SegmentInPolygon.polygon_label (first (_segments self)))
              (position (SegmentInPolygon.start (first (_segments self))))
              (fun H => H)) as (a0 & E0 & L0).
  destruct (guarded_code_of
              (is_in_edge_interior
                 (position (SegmentInPolygon.end_ (last (_segments self))))
               && negb (TV_eqb
                          (invert (SegmentInPolygon.end_
                                     (last (_segments self))))
                          (SegmentInPolygon.start (first (_segments self)))))
              (SegmentInPolygon.polygon_label (last (_segments self)))
              (position (SegmentInPolygon.end_ (last (_segments self))))
              (fun H => proj1 (andb_prop _ _ H))) as (a2 & E2 & L2).
  rewrite E0, E2. cbn [bind]. split.
  - intros H. destruct (mapM_code_of_edges inner H) as (xs & E1 & L1).
    fold inner. unfold segments in inner. fold inner. rewrite E1. cbn [bind].
    eexists. split; [reflexivity|].
    rewrite !length_app, L1. lia.
  - intros H. fold inner. unfold segments in inner. fold inner.
    now rewrite (mapM_code_of_vertex inner H).
Qed.
End Coding.

(** ** The dictionary of [_get_iet] *)

Section IetCache.
Context {F : ExactField} (S : FlatSurface F).
Import StraightLineTrajectoryTranslation.

(** The polygons are the keys of the dictionary [_iets]: [polygon_of] is
    [self._s.polygon], [polygon_eqb] the equality of polygons and
    [polygon_flow_map] their method [flow_map]. *)
Variable Polygon : Type.
Variable polygon_eqb : Polygon -> Polygon -> bool.
Variable polygon_of : Z -> Polygon.
Variable polygon_flow_map : Polygon -> Vec2 F -> IET F.

(** [d[polygon]], [None] for [KeyError]. *)
Fixpoint iets_get (d : list (Polygon * IET F)) (polygon : Polygon) :
    option (IET F) :=
  match d with
  | [] => None
  | (q, T) :: d' => if polygon_eqb q polygon then Some T else iets_get d' polygon
  end.

(** [d[polygon] = T] *)
Fixpoint iets_set (d : list (Polygon * IET F)) (polygon : Polygon)
    (T : IET F) : list (Polygon * IET F) :=
  match d with
  | [] => [(polygon, T)]
  | (q, T') :: d' =>
      if polygon_eqb q polygon then (q, T) :: d'
      else (q, T') :: iets_set d' polygon T
  end.

(** [_get_iet(label)] with its dictionary: the attribute [_iets] is
    absent ([None]) until the first call.  The result is [None] when the
    last line raises [KeyError]. *)
Definition _get_iet_cached (iets : option (list (Polygon * IET F)))
    (vector : Vec2 F) (label : Z) :
    option (IET F) * option (list (Polygon * IET F)) :=
  let polygon := polygon_of label in
  match iets with
  | None =>
      let d := [(polygon, polygon_flow_map polygon vector)] in
      (iets_get d polygon, Some d)
  | Some d =>
      match iets_get d polygon with
      | Some T => (Some T, Some d)
      | None =>
          let d' := iets_set d polygon (polygon_flow_map polygon vector) in
          (iets_get d' polygon, Some d')
      end
  end.

(** Every map of the dictionary is the flow map of its key in the
    direction of the trajectory. *)
Definition iets_sound (vector : Vec2 F) (iets : option (list (Polygon * IET F))) :
    Prop :=
  match iets with
  | None => True
  | Some d => Forall (fun e => snd e = polygon_flow_map (fst e) vector) d
  end.

Hypothesis polygon_eqb_spec : forall p q, reflect (p = q) (polygon_eqb p q).
Hypothesis flow_map_polygon : forall label vector,
  flow_map S label vector = polygon_flow_map (polygon_of label) vector.

Lemma polygon_eqb_refl (p : Polygon) : polygon_eqb p p = true.
Proof. now destruct (polygon_eqb_spec p p). Qed.

Lemma iets_get_set (d : list (Polygon * IET F)) (p : Polygon) (T : IET F) :
  iets_get (iets_set d p T) p = Some T.
Proof.
  induction d as [|[q T'] d IH]; cbn [iets_set iets_get].
  - now rewrite polygon_eqb_refl.
  - destruct (polygon_eqb q p) eqn:E; cbn [iets_get]; now rewrite E.
Qed.

Lemma iets_get_other (d : list (Polygon * IET F)) (p q : Polygon)
    (T : IET F) :
  p <> q -> iets_get (iets_set d p T) q = iets_get d q.
Proof.
  intros N. induction d as [|[r T'] d IH]; cbn [iets_set iets_get].
  - destruct (polygon_eqb_spec p q); [contradiction | reflexivity].
  - destruct (polygon_eqb_spec r p) as [->|]; cbn [iets_get].
    + destruct (polygon_eqb_spec p q); [contradiction | reflexivity].
    + now rewrite IH.
Qed.

Lemma iets_get_sound (vector : Vec2 F) (d : list (Polygon * IET F))
    (p : Polygon) (T : IET F) :
  iets_sound vector (Some d) -> iets_get d p = Some T ->
  T = polygon_flow_map p vector.
Proof.
  cbn [iets_sound]. induction 1 as [|[q T'] d Hq Hd IH]; cbn [iets_get];
    [discriminate|].
  destruct (polygon_eqb_spec q p) as [->|]; [|exact IH].
  intros E. injection E as <-. exact Hq.
Qed.

Lemma iets_set_sound (vector : Vec2 F) (d : list (Polygon * IET F))
    (p : Polygon) :
  iets_sound vector (Some d) ->
  iets_sound vector (Some (iets_set d p (polygon_flow_map p vector))).
Proof.
  cbn [iets_sound]. induction 1 as [|[q T'] d Hq Hd IH]; cbn [iets_set].
  - constructor; [reflexivity | constructor].
  - destruct (polygon_eqb_spec q p) as [->|]; constructor; trivial.
Qed.

(** X16. On a dictionary where every map is the flow map of its key in
    the direction of the trajectory, and before the dictionary exists,
    [_get_iet(label)] raises no [KeyError] and returns the flow map of
    the polygon of [label]; the dictionary it leaves has the same
    property, holds that polygon, and gives the same map as before at
    every other polygon. *)
Theorem get_iet_cached_spec (self : t F)
    (iets : option (list (Polygon * IET F))) (label : Z) :
  iets_sound (_vector self) iets ->
  let r := _get_iet_cached iets (_vector self) label in
  fst r = Some (_get_iet S self label) /\
  iets_sound (_vector self) (snd r) /\
  exists d',
    snd r = Some d' /\
    iets_get d' (polygon_of label) = Some (_get_iet S self label) /\
    forall d q, iets = Some d -> q <> polygon_of label ->
                iets_get d' q = iets_get d q.
Proof.
  intros H. unfold _get_iet, _get_iet_cached. rewrite flow_map_polygon.
  set (p := polygon_of label).
  set (T := polygon_flow_map p (_vector self)).
  destruct iets as [d|]; cbn zeta.
  - destruct (iets_get d p) as [T0|] eqn:E; cbn [fst snd].
    + rewrite (iets_get_sound _ d p T0 H E). fold T.
      split; [reflexivity|]. split; [exact H|].
      exists d. split; [reflexivity|]. split.
      * rewrite E. now rewrite (iets_get_sound _ d p T0 H E).
      * intros d0 q E0 _. now injection E0 as <-.
    + rewrite iets_get_set. split; [reflexivity|].
      split; [now apply iets_set_sound|].
      exists (iets_set d p T). split; [reflexivity|].
      split; [apply iets_get_set|].
      intros d0 q E0 N. injection E0 as <-. apply iets_get_other.
      intros ->. now apply N.
  - cbn [fst snd iets_get]. rewrite polygon_eqb_refl.
    split; [reflexivity|]. split; [constructor; [reflexivity | constructor]|].
    exists [(p, T)]. split; [reflexivity|]. split.
    + cbn [iets_get]. now rewrite polygon_eqb_refl.
    + intros d q E0. discriminate E0.
Qed.
End IetCache.

(** ** The further properties on the square torus *)

Section TorusMore.
Import SquareTorus.

(** Equality of a side and an offset, by computation. *)
Lemma side_offset_eq (a b : Z * QcField) :
  (fst a =? fst b)%Z && Qc_eqb (snd a) (snd b) = true -> a = b.
Proof.
  destruct a as [e x], b as [e' x']. cbn [fst snd]. intros H.
  apply andb_true_iff in H. destruct H as [H1 H2].
  apply Z.eqb_eq in H1. destruct (Qc_eqb_spec x x'); [|discriminate].
  now subst.
Qed.

Lemma forallb_Forall {A : Type} (f : A -> bool) (l : list A) :
  forallb f l = true -> Forall (fun a => f a = true) l.
Proof.
  intros H. apply Forall_forall. now apply forallb_forall.
Qed.

Definition closed_triples_11 : StraightLineTrajectoryTranslation.t QcField :=
  StraightLineTrajectoryTranslation.flow surface triples_11 10.

(** The trajectory of the docstring of [_next]: direction [(5, 13)], from
    the triple [(0, 0, 1/3)]. *)
Definition triples_513 : StraightLineTrajectoryTranslation.t QcField :=
  {| StraightLineTrajectoryTranslation._vector := (qc 5 1, qc 13 1);
     StraightLineTrajectoryTranslation._points := singleton (0, 0, qc 1 3)%Z |}.

Example closed_triples_11_points :
  same closed_triples_11
    {| StraightLineTrajectoryTranslation._vector := (qc 1 1, qc 1 1);
       StraightLineTrajectoryTranslation._points :=
         {| first := (0, 0, qc 2 35)%Z; rest := [(0, 3, qc 2 35)]%Z |} |}
  = true.
Proof. vm_compute. reflexivity. Qed.

(** X2, on the saddle connection of [v_56], of ten segments. *)
Lemma segment_index_witness :
  (exists s, StraightLineTrajectory.segment saddle_56 (-10) = Ok s /\
             In s (to_list (StraightLineTrajectory.segments saddle_56))) /\
  StraightLineTrajectory.segment saddle_56 10
  = Raise (IndexError "deque index out of range").
Proof.
  assert (E : StraightLineTrajectory.combinatorial_length saddle_56 = 10%Z)
    by (vm_compute; reflexivity).
  split.
  - apply (proj1 (proj2 (proj2 (segment_index saddle_56 (-10))))).
    rewrite E. lia.
  - apply (proj2 (proj2 (proj2 (segment_index saddle_56 10)))).
    rewrite E. lia.
Defined.

(** X5, on the torus: three steps forward from the segment of [v_56]. *)
Lemma flow_appends_witness :
  (3 > 0)%Z /\
  exists added,
    to_list (StraightLineTrajectory.segments
               (StraightLineTrajectory.flow
                  (StraightLineTrajectory.init v_56) 3))
    = to_list (StraightLineTrajectory.segments
                 (StraightLineTrajectory.init v_56)) ++ added /\
    (Z.of_nat (List.length added) <= 3)%Z /\
    StraightLineTrajectory._backward
      (StraightLineTrajectory.flow (StraightLineTrajectory.init v_56) 3)
    = StraightLineTrajectory._backward (StraightLineTrajectory.init v_56) /\
    ((Z.of_nat (List.length added) < 3)%Z ->
     StraightLineTrajectory.is_forward_separatrix
       (StraightLineTrajectory.flow (StraightLineTrajectory.init v_56) 3)
     || StraightLineTrajectory.is_closed
          (StraightLineTrajectory.flow (StraightLineTrajectory.init v_56) 3)
     = true).
Proof.
  split; [reflexivity|].
  apply (flow_appends (StraightLineTrajectory.init v_56) 3). reflexivity.
Defined.

(** X6, on the torus: three steps backward from the segment of [v_56]. *)
Lemma flow_prepends_witness :
  (-3 < 0)%Z /\
  exists added,
    to_list (StraightLineTrajectory.segments
               (StraightLineTrajectory.flow
                  (StraightLineTrajectory.init v_56) (-3)))
    = added ++ to_list (StraightLineTrajectory.segments
                          (StraightLineTrajectory.init v_56)) /\
    (Z.of_nat (List.length added) <= - -3)%Z /\
    StraightLineTrajectory._forward
      (StraightLineTrajectory.flow (StraightLineTrajectory.init v_56) (-3))
    = StraightLineTrajectory._forward (StraightLineTrajectory.init v_56) /\
    ((Z.of_nat (List.length added) < - -3)%Z ->
     StraightLineTrajectory.is_backward_separatrix
       (StraightLineTrajectory.flow (StraightLineTrajectory.init v_56) (-3))
     || StraightLineTrajectory.is_closed
          (StraightLineTrajectory.flow (StraightLineTrajectory.init v_56) (-3))
     = true).
Proof.
  split; [reflexivity|].
  apply (flow_prepends (StraightLineTrajectory.init v_56) (-3)). reflexivity.
Defined.

(** X7, on the torus: two steps then three, and their opposites. *)
Lemma flow_flow_witness :
  StraightLineTrajectory.flow
    (StraightLineTrajectory.flow (StraightLineTrajectory.init v_56) 2) 3
  = StraightLineTrajectory.flow (StraightLineTrajectory.init v_56) (2 + 3) /\
  StraightLineTrajectory.flow
    (StraightLineTrajectory.flow (StraightLineTrajectory.init v_56) (-2)) (-3)
  = StraightLineTrajectory.flow (StraightLineTrajectory.init v_56) (-2 + -3).
Proof.
  destruct (flow_flow (StraightLineTrajectory.init v_56) 2 3) as (_ & H & _).
  destruct (flow_flow (StraightLineTrajectory.init v_56) (-2) (-3))
    as (_ & _ & H').
  split; [apply H; lia | apply H'; lia].
Defined.

(** X8, on the torus: three steps forward from the triple of [v_56]. *)
Lemma flow_forward_outcome_witness :
  (3 > 0)%Z /\
  let u := StraightLineTrajectoryTranslation.flow surface triples_56 3 in
  StraightLineTrajectoryTranslation._vector u
  = StraightLineTrajectoryTranslation._vector triples_56 /\
  first (StraightLineTrajectoryTranslation._points u)
  = first (StraightLineTrajectoryTranslation._points triples_56) /\
  (StraightLineTrajectoryTranslation.combinatorial_length triples_56
   <= StraightLineTrajectoryTranslation.combinatorial_length u
   <= StraightLineTrajectoryTranslation.combinatorial_length triples_56 + 3)%Z /\
  ((StraightLineTrajectoryTranslation.combinatorial_length u
    < StraightLineTrajectoryTranslation.combinatorial_length triples_56 + 3)%Z ->
   StraightLineTrajectoryTranslation.is_closed surface u
   || StraightLineTrajectoryTranslation.is_forward_separatrix surface u = true).
Proof.
  split; [reflexivity|].
  apply (flow_forward_outcome surface triples_56 3). reflexivity.
Defined.

(** X9, on the torus: three steps backward from the triple of [w_12]. *)
Lemma flow_backward_outcome_witness :
  (-3 < 0)%Z /\
  let u := StraightLineTrajectoryTranslation.flow surface triples_12' (-3) in
  exists added,
    to_list (StraightLineTrajectoryTranslation._points u)
    = rev added ++ to_list (StraightLineTrajectoryTranslation._points triples_12') /\
    chain (StraightLineTrajectoryTranslation._previous surface triples_12')
      (first (StraightLineTrajectoryTranslation._points triples_12')) added /\
    Forall (fun b =>
              StraightLineTrajectoryTranslation.triple_eqb b
                (last (StraightLineTrajectoryTranslation._points triples_12'))
              = false) added /\
    Forall (fun b => is_zero (StraightLineTrajectoryTranslation.offset b) = false)
      (removelast
         (first (StraightLineTrajectoryTranslation._points triples_12') :: added)) /\
    StraightLineTrajectoryTranslation._vector u
    = StraightLineTrajectoryTranslation._vector triples_12' /\
    last (StraightLineTrajectoryTranslation._points u)
    = last (StraightLineTrajectoryTranslation._points triples_12') /\
    (Z.of_nat
       (snd (StraightLineTrajectoryTranslation.flow_count surface triples_12' (-3)))
     <= - -3)%Z /\
    ((Z.of_nat (List.length added) < - -3)%Z ->
     StraightLineTrajectoryTranslation.is_backward_separatrix u = true \/
     StraightLineTrajectoryTranslation.triple_eqb
       (StraightLineTrajectoryTranslation._previous surface u
          (first (StraightLineTrajectoryTranslation._points u)))
       (last (StraightLineTrajectoryTranslation._points u)) = true).
Proof.
  split; [reflexivity|].
  apply (flow_backward_outcome surface triples_12' (-3)). reflexivity.
Defined.

(** X10, on the torus: the closed trajectory of [v_11], of two triples. *)
Lemma flow_closed_witness :
  StraightLineTrajectoryTranslation.is_closed surface closed_triples_11 = true /\
  StraightLineTrajectoryTranslation.flow surface closed_triples_11 3
  = closed_triples_11 /\
  StraightLineTrajectoryTranslation.flow surface closed_triples_11 (-3)
  = closed_triples_11.
Proof.
  assert (H : StraightLineTrajectoryTranslation.is_closed surface
                closed_triples_11 = true) by (vm_compute; reflexivity).
  split; [exact H|].
  destruct (flow_closed surface closed_triples_11 3 H) as [Hf _].
  destruct (flow_closed surface closed_triples_11 (-3) H) as [_ Hb].
  split; [apply Hf; reflexivity|].
  apply Hb; [reflexivity|].
  apply triple_eqb_eq. vm_compute. reflexivity.
Defined.

(** X11, on the torus: two steps then three, and their opposites. *)
Lemma flow_flow_translation_witness :
  StraightLineTrajectoryTranslation.flow surface
    (StraightLineTrajectoryTranslation.flow surface triples_56 2) 3
  = StraightLineTrajectoryTranslation.flow surface triples_56 (2 + 3) /\
  StraightLineTrajectoryTranslation.flow surface
    (StraightLineTrajectoryTranslation.flow surface triples_56 (-2)) (-3)
  = StraightLineTrajectoryTranslation.flow surface triples_56 (-2 + -3).
Proof.
  destruct (flow_flow_translation surface triples_56 2 3) as (_ & H & _).
  destruct (flow_flow_translation surface triples_56 (-2) (-3)) as (_ & _ & H').
  split; [apply H; lia | apply H'; lia].
Defined.

(** X12, on the torus, with the numbers of the docstring of [_next]:
    the image of [(0, 0, 1/3)] in the direction [(5, 13)] is
    [(0, 0, 16/3)], and [_previous] takes it back. *)
Lemma previous_next_witness :
  StraightLineTrajectoryTranslation._next surface triples_513 (0, 0, qc 1 3)%Z
  = (0, 0, qc 16 3)%Z /\
  StraightLineTrajectoryTranslation._previous surface triples_513
    (StraightLineTrajectoryTranslation._next surface triples_513
       (0, 0, qc 1 3)%Z)
  = (0, 0, qc 1 3)%Z.
Proof.
  apply (previous_next surface triples_513 0 0 (qc 1 3) 2 (qc 16 3) 0 0).
  - apply side_offset_eq. vm_compute. reflexivity.
  - reflexivity.
  - reflexivity.
  - apply side_offset_eq. vm_compute. reflexivity.
Defined.

(** X13, on the torus: the segment of [v_56] starts at [(1/2, 0)], in
    the middle of side 0, and the constructor gives the triple
    [(0, 0, 1/2 * 6)]. *)
Lemma init_outcome_witness :
  let start := SegmentInPolygon.start (SegmentInPolygon.of_vector v_56) in
  position start = EDGE_INTERIOR 0 /\
  vsub (point start) (vertex 0 0)
  = vscale (qc 1 2) (vsub (vertex 0 (0 + 1)) (vertex 0 0)) /\
  StraightLineTrajectoryTranslation.init surface v_56 = Ok triples_56.
Proof.
  intros start.
  assert (Hp : position start = EDGE_INTERIOR 0)
    by (apply (reflect_iff _ _ (position_eqb_spec _ _)); vm_compute;
        reflexivity).
  assert (He : vsub (point start) (vertex 0 0)
               = vscale (qc 1 2) (vsub (vertex 0 (0 + 1)) (vertex 0 0)))
    by (apply qc_vec_eq; vm_compute; reflexivity).
  split; [exact Hp|]. split; [exact He|].
  apply (proj2 (init_outcome surface v_56 triples_56)).
  exists 0%Z, (qc 1 2). split; [left; exact Hp|]. split; [|split].
  - apply qc_vec_neq. vm_compute. reflexivity.
  - exact He.
  - apply same_eq. vm_compute. reflexivity.
Defined.

(** X15, on the torus: the saddle connection of [v_56], of ten segments,
    has a coding of nine to eleven pairs. *)
Lemma coding_outcome_witness :
  exists pairs,
    StraightLineTrajectory.coding saddle_56 = Ok pairs /\
    (StraightLineTrajectory.combinatorial_length saddle_56 - 1
     <= Z.of_nat (List.length pairs)
     <= StraightLineTrajectory.combinatorial_length saddle_56 + 1)%Z.
Proof.
  apply (proj1 (coding_outcome saddle_56)).
  apply (forallb_Forall
           (fun s => is_in_edge_interior (position (SegmentInPolygon.end_ s)))).
  vm_compute. reflexivity.
Defined.

(** X16, on the torus, whose labels all name the unit square: a call of
    [_get_iet] on the dictionary that the first call leaves. *)
Lemma get_iet_cached_spec_witness :
  let square_flow_map := fun (_ : unit) v => flow_map 0 v in
  let vector := StraightLineTrajectoryTranslation._vector triples_56 in
  let iets := Some [(tt, flow_map 0 vector)] in
  let r := _get_iet_cached unit (fun _ _ => true) (fun _ => tt) square_flow_map
             iets vector 3 in
  iets_sound unit square_flow_map vector iets /\
  fst r = Some (StraightLineTrajectoryTranslation._get_iet surface triples_56 3) /\
  iets_sound unit square_flow_map vector (snd r) /\
  exists d',
    snd r = Some d' /\
    iets_get unit (fun _ _ => true) d' tt
    = Some (StraightLineTrajectoryTranslation._get_iet surface triples_56 3) /\
    forall d q, iets = Some d -> q <> tt ->
                iets_get unit (fun _ _ => true) d' q
                = iets_get unit (fun _ _ => true) d q.
Proof.
  intros square_flow_map vector iets.
  assert (H : iets_sound unit square_flow_map vector iets)
    by (constructor; [reflexivity | constructor]).
  split; [exact H|].
  apply (get_iet_cached_spec surface unit (fun _ _ => true) (fun _ => tt)
           square_flow_map (fun p q => match p, q with
                                       | tt, tt => ReflectT _ eq_refl
                                       end)
           (fun label vector => eq_refl) triples_56 iets 3 H).
Defined.
End TorusMore.
